(** * aws-haproxy-config: the reconciliation pipeline of [main.go]

    A shallow embedding of [src/main.go].  The program listens on an SQS
    queue; for every message it asks EC2 for the instances of a tagged
    group, renders the HAProxy configuration from a template, writes it
    to disk and runs a reload script.

    Conventions of the embedding:
    - a Go [*string] (or pointer to a struct) that the SDK leaves [nil]
      when the response omits the member is an [option]; dereferencing
      [None] panics, as the Go runtime does;
    - the elements of the SDK's slices of pointers ([[]*ec2.Tag],
      [[]*ec2.Instance], ...) are values: the SDK allocates every element;
    - a Go slice is a [list]; the [nil] slice and the empty slice are both
      [[]] (the program never compares a slice with [nil]);
    - a Go [(T, error)] result is a pair [T * option error];
    - everything outside the process (EC2, SQS, the file system's
      failures, the reload script) answers through the oracles of
      [Collaborators]; every call is recorded in the [trace] of the
      [World], in program order;
    - of [main], the consume loop is embedded; its start-up (environment,
      session, queue URL) ends the process on failure and is not. *)

From Stdlib Require Import String Ascii List Bool Arith Lia.
From stdpp Require Import gmap strings list.
Import ListNotations.
Local Open Scope string_scope.
Local Open Scope list_scope.

(** ** Data model *)

Definition error := string.

Module ec2.

Definition InstanceStateNameRunning : string := "running".
Definition InstanceStateNamePending : string := "pending".

Record Tag := {
  Key : option string;
  Value : option string;
}.

Record InstanceState := {
  Name : option string;
}.

Record Instance := {
  InstanceId : option string;
  InstanceType : option string;
  State : option InstanceState;
  PrivateDnsName : option string;
  PrivateIpAddress : option string;
  Tags : list Tag;
}.

Record Reservation := {
  Instances : list Instance;
}.

Record DescribeInstancesOutput := {
  Reservations : list Reservation;
}.

End ec2.

(** JSON documents, as [encoding/json] sees them. *)
#[local] Set Warnings "-register-all".
Inductive json :=
| JNull
| JBool (b : bool)
| JNumber (literal : string)
| JString (s : string)
| JArray (elements : list json)
| JObject (members : list (string * json)).

(** The text of a message body, by what a JSON scanner makes of it:
    either text that is not one JSON document, or the document it spells. *)
Inductive bodyText :=
| NotJSON (raw : string)
| JSONText (doc : json).

Module sqs.

Record Message := {
  Body : option bodyText;
  ReceiptHandle : option string;
}.

Record ReceiveMessageOutput := {
  Messages : list Message;
}.

End sqs.

Record env := {
  AwsAccessKeyID : string;
  AwsSecretAccessKey : string;
  AwsSqsRegion : string;
  AwsSqsQueueName : string;
  AwsSnsTopicName : string;
  AwsEC2GroupName : string;
  HaproxyFileDest : string;
  HaproxyReloadScript : string;
}.

Record internalInstance := {
  internalDNS : string;
  internalIP : string;
  instanceType : string;
  instanceID : string;
  name : string;
}.

Record templateItem := {
  Name : string;
  Host : string;
}.

(** Modelled from the spec: the template asset [haproxy.cfg.template] is
    not part of the sources.  The spec describes it as static text with a
    repeating unit that takes the [Name] and [Host] of each item; a
    template is a sequence of text nodes and [range] nodes. *)
Inductive blockNode :=
| BlockText (s : string)
| FieldName
| FieldHost.

Inductive templateNode :=
| Text (s : string)
| RangeItems (block : list blockNode).

Definition Template := list templateNode.

(** ** The world outside the process *)

Inductive LogLine :=
| LogExecuting (pathToScript : string)
| LogRunError (err : error)
| LogCommandOutput (pathToScript output : string)
| LogUnmarshalError (err : error)
| LogMsgInvalid (msg : sqs.Message)
| LogEC2Error (err : error)
| LogCreateError (err : error)
| LogWriteError (err : error)
| LogPopulated (templateData : list templateItem)
| LogFoundInstance (instanceObj : internalInstance).

Inductive Effect :=
| Logged (line : LogLine)
| PrintedReceiveError (err : error)
| EC2DescribeInstances (groupName : string)
| OsCreate (path : string)
| FileWrite (path chunk : string)
| ExecCommand (pathToScript : string)
| SqsReceiveMessage
| SqsDeleteMessage (receiptHandle : option string).

Record World := {
  files : gmap string string;
  trace : list Effect;
}.

Definition record (e : Effect) (w : World) : World :=
  {| files := files w; trace := trace w ++ [e] |}.

(** The answers of the collaborators. Each may depend on the whole world
    at the time of the call, so answers may change from call to call. *)
Record Collaborators := {
  DescribeInstances : World -> string -> ec2.DescribeInstancesOutput + error;
  os_Create : World -> string -> option error;
  (** [Some (n, err)]: the write fails with [err] after [n] bytes. *)
  file_Write : World -> string -> string -> option (nat * error);
  CombinedOutput : World -> string -> string * option error;
  ReceiveMessage : World -> sqs.ReceiveMessageOutput + error;
  (** Does [time.Time.UnmarshalJSON] accept this string (RFC 3339)? *)
  time_Parse : string -> option error;
}.

(** ** Computations: state passing, with panics *)

Inductive Result (A : Type) :=
| Returns (a : A) (w : World)
| Panics (w : World).
Arguments Returns {A} a w.
Arguments Panics {A} w.

Definition M (A : Type) := World -> Result A.

Definition ret {A} (a : A) : M A := fun w => Returns a w.

Definition bind {A B} (m : M A) (k : A -> M B) : M B :=
  fun w => match m w with
           | Returns a w' => k a w'
           | Panics w' => Panics w'
           end.

Declare Scope go_scope.
Delimit Scope go_scope with go.
Notation "x <- m ;; k" := (bind m (fun x => k))
  (at level 100, m at next level, right associativity) : go_scope.
Notation "m ;; k" := (bind m (fun _ => k))
  (at level 100, right associativity) : go_scope.
Local Open Scope go_scope.

Definition panic {A} : M A := fun w => Panics w.

(** [*p] *)
Definition deref {A} (p : option A) : M A :=
  match p with
  | Some a => ret a
  | None => panic
  end.

Definition emit (e : Effect) : M unit := fun w => Returns tt (record e w).

Definition log (line : LogLine) : M unit := emit (Logged line).

(** [for _, x := range l { s = body s x }] *)
Fixpoint rangeLoop {A S} (body : S -> A -> M S) (l : list A) (s : S) : M S :=
  match l with
  | [] => ret s
  | x :: l' => s' <- body s x ;; rangeLoop body l' s'
  end.

(** ** [internalInstance] methods *)

Definition getName (i : internalInstance) : string :=
  if negb (name i =? "")%string then name i
  else instanceType i +:+ instanceID i.

Definition getEndpoint (i : internalInstance) : string := internalIP i.

Definition withName (i : internalInstance) (v : string) : internalInstance :=
  {| internalDNS := internalDNS i; internalIP := internalIP i;
     instanceType := instanceType i; instanceID := instanceID i; name := v |}.

Definition withAddresses (i : internalInstance) (dns ip : string) : internalInstance :=
  {| internalDNS := dns; internalIP := ip;
     instanceType := instanceType i; instanceID := instanceID i; name := name i |}.

Section Program.

Variable X : Collaborators.

(** The global [haProxyTemplate], parsed once at start-up. *)
Variable haProxyTemplate : Template.

(** ** getInstanceListFromGroup *)

(** The body of [for _, tag := range instance.Tags]; the loop state is
    [(instanceIsRelevant, instanceObj)]. *)
Definition scanTag (groupName : string) (st : bool * internalInstance)
    (tag : ec2.Tag) : M (bool * internalInstance) :=
  let '(instanceIsRelevant, instanceObj) := st in
  key <- deref (ec2.Key tag) ;;
  instanceIsRelevant <-
    (if (key =? "group")%string then
       value <- deref (ec2.Value tag) ;;
       ret (if (value =? groupName)%string then true else instanceIsRelevant)
     else ret instanceIsRelevant) ;;
  key <- deref (ec2.Key tag) ;;
  if (key =? "Name")%string then
    value <- deref (ec2.Value tag) ;;
    ret (instanceIsRelevant, withName instanceObj value)
  else ret (instanceIsRelevant, instanceObj).

(** The body of [for _, instance := range reservation.Instances]; the
    loop state is the slice [instances]. *)
Definition scanInstance (groupName : string) (instances : list internalInstance)
    (instance : ec2.Instance) : M (list internalInstance) :=
  instanceID <- deref (ec2.InstanceId instance) ;;
  instanceType <- deref (ec2.InstanceType instance) ;;
  let instanceObj :=
    {| internalDNS := ""; internalIP := ""; instanceType := instanceType;
       instanceID := instanceID; name := "" |} in
  st <- rangeLoop (scanTag groupName) (ec2.Tags instance) (false, instanceObj) ;;
  let '(instanceIsRelevant, instanceObj) := st in
  live <-
    (if instanceIsRelevant then
       state <- deref (ec2.State instance) ;;
       stateName <- deref (ec2.Name state) ;;
       if (stateName =? ec2.InstanceStateNameRunning)%string then ret true
       else
         state <- deref (ec2.State instance) ;;
         stateName <- deref (ec2.Name state) ;;
         ret (stateName =? ec2.InstanceStateNamePending)%string
     else ret false) ;;
  if (live : bool) then
    dns <- deref (ec2.PrivateDnsName instance) ;;
    ip <- deref (ec2.PrivateIpAddress instance) ;;
    let instanceObj := withAddresses instanceObj dns ip in
    log (LogFoundInstance instanceObj) ;;
    ret (instances ++ [instanceObj])
  else ret instances.

Definition scanReservation (groupName : string) (instances : list internalInstance)
    (reservation : ec2.Reservation) : M (list internalInstance) :=
  rangeLoop (scanInstance groupName) (ec2.Instances reservation) instances.

Definition callDescribeInstances (groupName : string)
    : M (ec2.DescribeInstancesOutput + error) :=
  fun w => Returns (DescribeInstances X w groupName)
                   (record (EC2DescribeInstances groupName) w).

Definition getInstanceListFromGroup (groupName : string)
    : M (list internalInstance * option error) :=
  r <- callDescribeInstances groupName ;;
  match r with
  | inr err => ret ([], Some err)
  | inl output =>
      instances <- rangeLoop (scanReservation groupName)
                             (ec2.Reservations output) [] ;;
      ret (instances, None)
  end.

(** ** validateMsg *)

(** [encoding/json] matches an object key with a struct field by name,
    exactly or, failing that, ignoring case, where case is folded as
    Unicode simple folding does.  Strings are UTF-8 bytes.  The only
    characters outside ASCII that fold to an ASCII letter are U+017F
    (long s, bytes 197 191), which folds to [s], and U+212A (Kelvin sign,
    bytes 226 132 170), which folds to [k]; the names of the fields of
    [snsMsg] are ASCII, so no other character outside ASCII can take part
    in a match, and such bytes are left as they are. *)
Definition lowerAscii (c : ascii) : ascii :=
  let n := nat_of_ascii c in
  if (65 <=? n)%nat && (n <=? 90)%nat then ascii_of_nat (n + 32) else c.

Fixpoint foldName (s : string) : string :=
  match s with
  | EmptyString => EmptyString
  | String c s' =>
      match s' with
      | EmptyString => String (lowerAscii c) EmptyString
      | String c1 s1 =>
          if (nat_of_ascii c =? 197)%nat && (nat_of_ascii c1 =? 191)%nat
          then String "s" (foldName s1)
          else
            match s1 with
            | EmptyString => String (lowerAscii c) (foldName s')
            | String c2 s2 =>
                if (nat_of_ascii c =? 226)%nat && (nat_of_ascii c1 =? 132)%nat
                   && (nat_of_ascii c2 =? 170)%nat
                then String "k" (foldName s2)
                else String (lowerAscii c) (foldName s')
            end
      end
  end.

Inductive fieldKind := StringField | TimeField.

(** The fields of [snsMsg], in declaration order. *)
Definition snsMsgFields : list (string * fieldKind) :=
  [("Type", StringField); ("MessageID", StringField); ("TopicArn", StringField);
   ("Timestamp", TimeField); ("Subject", StringField); ("Message", StringField)].

Definition fieldFor (key : string) : option fieldKind :=
  match find (fun f => (fst f =? key)%string) snsMsgFields with
  | Some f => Some (snd f)
  | None =>
      match find (fun f => (foldName (fst f) =? foldName key)%string)
                 snsMsgFields with
      | Some f => Some (snd f)
      | None => None
      end
  end.

(** The error of a value that a [string] field cannot take; the decoder
    saves it and goes on. *)
Definition typeError (key : string) (v : json) : option error :=
  match fieldFor key, v with
  | Some StringField, (JBool _ | JNumber _ | JArray _ | JObject _) =>
      Some ("json: cannot unmarshal value into Go struct field snsMsg." +:+ key
            +:+ " of type string")
  | _, _ => None
  end.

(** The error of [time.Time.UnmarshalJSON]; the decoder stops on it. *)
Definition unmarshalerError (key : string) (v : json) : option error :=
  match fieldFor key, v with
  | Some TimeField, JNull => None
  | Some TimeField, JString s => time_Parse X s
  | Some TimeField, _ => Some "Time.UnmarshalJSON: input is not a JSON string"
  | _, _ => None
  end.

Fixpoint firstError (check : string -> json -> option error)
    (members : list (string * json)) : option error :=
  match members with
  | [] => None
  | (key, v) :: rest =>
      match check key v with
      | Some err => Some err
      | None => firstError check rest
      end
  end.

(** Up to the first member on which the decoder stops. *)
Fixpoint decoded (members : list (string * json)) : list (string * json) :=
  match members with
  | [] => []
  | (key, v) :: rest =>
      match unmarshalerError key v with
      | Some _ => []
      | None => (key, v) :: decoded rest
      end
  end.

(** [json.Unmarshal([]byte(body), &msgBody)] with [msgBody : *snsMsg]. *)
Definition jsonUnmarshal (body : bodyText) : option error :=
  match body with
  | NotJSON _ => Some "invalid character looking for beginning of value"
  | JSONText JNull => None
  | JSONText (JObject members) =>
      match firstError unmarshalerError members with
      | Some err => Some err
      | None => firstError typeError (decoded members)
      end
  | JSONText _ =>
      Some "json: cannot unmarshal value into Go value of type main.snsMsg"
  end.

Definition validateMsg (msg : sqs.Message) : M bool :=
  body <- deref (sqs.Body msg) ;;
  match jsonUnmarshal body with
  | Some err => log (LogUnmarshalError err) ;; ret false
  | None => ret true
  end.

(** ** getEC2Config *)

Definition getEC2Config (awsEC2GroupName : string)
    : M (list templateItem * option error) :=
  r <- getInstanceListFromGroup awsEC2GroupName ;;
  let '(internalInstances, err) := r in
  match err with
  | Some err => log (LogEC2Error err) ;; ret ([], Some err)
  | None =>
      templateList <-
        rangeLoop (fun templateList instance =>
                     ret (templateList ++
                          [{| Name := getName instance;
                              Host := getEndpoint instance |}]))
                  internalInstances [] ;;
      ret (templateList, None)
  end.

(** ** writeHaproxyConfig *)

(** What one node prints: [text/template] issues one [Write] per text
    node and one per printed field. *)
Definition blockChunk (item : templateItem) (n : blockNode) : string :=
  match n with
  | BlockText s => s
  | FieldName => Name item
  | FieldHost => Host item
  end.

Definition nodeChunks (data : list templateItem) (n : templateNode) : list string :=
  match n with
  | Text s => [s]
  | RangeItems block => flat_map (fun item => map (blockChunk item) block) data
  end.

Definition templateChunks (t : Template) (data : list templateItem) : list string :=
  flat_map (nodeChunks data) t.

Definition fileContent (w : World) (path : string) : string :=
  default "" (files w !! path).

Definition appendFile (path s : string) (w : World) : World :=
  {| files := <[path := fileContent w path +:+ s]> (files w); trace := trace w |}.

(** [os.Create]: on success the file exists and is empty. *)
Definition osCreate (path : string) : M (option error) :=
  fun w =>
    match os_Create X w path with
    | Some err => Returns (Some err) (record (OsCreate path) w)
    | None =>
        Returns None {| files := <[path := ""]> (files w);
                        trace := trace w ++ [OsCreate path] |}
    end.

(** [Write] on the [os.File]: a failing write leaves the bytes it wrote. *)
Definition fileWrite (path chunk : string) : M (option error) :=
  fun w =>
    match file_Write X w path chunk with
    | None => Returns None (appendFile path chunk (record (FileWrite path chunk) w))
    | Some (n, err) =>
        Returns (Some err)
                (appendFile path (substring 0 n chunk)
                            (record (FileWrite path chunk) w))
    end.

Fixpoint writeChunks (path : string) (cs : list string) : M (option error) :=
  match cs with
  | [] => ret None
  | c :: cs' =>
      err <- fileWrite path c ;;
      match err with
      | Some err => ret (Some err)
      | None => writeChunks path cs'
      end
  end.

(** [haProxyTemplate.Execute(haproxyConfigFile, templateData)] *)
Definition templateExecute (path : string) (templateData : list templateItem)
    : M (option error) :=
  writeChunks path (templateChunks haProxyTemplate templateData).

Definition writeHaproxyConfig (haproxyFileDest : string)
    (templateData : list templateItem) : M (option error) :=
  err <- osCreate haproxyFileDest ;;
  match err with
  | Some err => log (LogCreateError err) ;; ret (Some err)
  | None =>
      err <- templateExecute haproxyFileDest templateData ;;
      match err with
      | Some err => log (LogWriteError err) ;; ret (Some err)
      | None => log (LogPopulated templateData) ;; ret None
      end
  end.

(** ** reloadHaproxy *)

Definition combinedOutput (pathToScript : string) : M (string * option error) :=
  fun w => Returns (CombinedOutput X w pathToScript)
                   (record (ExecCommand pathToScript) w).

Definition reloadHaproxy (pathToScript : string) : M unit :=
  log (LogExecuting pathToScript) ;;
  r <- combinedOutput pathToScript ;;
  let '(output, err) := r in
  match err with
  | Some err => log (LogRunError err)
  | None => log (LogCommandOutput pathToScript output)
  end.

(** ** handleMessage *)

Definition handleMessage (msg : sqs.Message) (environ : env) : M unit :=
  valid <- validateMsg msg ;;
  if negb valid then log (LogMsgInvalid msg)
  else
    r <- getEC2Config (AwsEC2GroupName environ) ;;
    let '(templateData, err) := r in
    match err with
    | Some _ => ret tt
    | None =>
        err <- writeHaproxyConfig (HaproxyFileDest environ) templateData ;;
        match err with
        | Some _ => ret tt
        | None => reloadHaproxy (HaproxyReloadScript environ)
        end
    end.

(** ** The consume loop of [main] *)

Definition receiveMessage : M (sqs.ReceiveMessageOutput + error) :=
  fun w => Returns (ReceiveMessage X w) (record SqsReceiveMessage w).

Definition deleteMessage (msg : sqs.Message) : M unit :=
  emit (SqsDeleteMessage (sqs.ReceiptHandle msg)).

(** [for _, msg := range resp.Messages { handleMessage(...); DeleteMessage(...) }] *)
Definition processMessages (environ : env) (msgs : list sqs.Message) : M unit :=
  rangeLoop (fun _ msg => handleMessage msg environ ;; deleteMessage msg) msgs tt.

(** One turn of [for { ... }]. *)
Definition pollOnce (environ : env) : M unit :=
  r <- receiveMessage ;;
  match r with
  | inr err => emit (PrintedReceiveError err)
  | inl resp => processMessages environ (sqs.Messages resp)
  end.

(** The first [turns] turns of the endless loop. *)
Fixpoint consume (turns : nat) (environ : env) : M unit :=
  match turns with
  | O => ret tt
  | S n => pollOnce environ ;; consume n environ
  end.

End Program.

(** * Specification and proofs *)

(** ** Vocabulary of the specification *)

Definition tagIs (k v : string) (t : ec2.Tag) : bool :=
  match ec2.Key t, ec2.Value t with
  | Some k', Some v' => (k' =? k)%string && (v' =? v)%string
  | _, _ => false
  end.

(** The instance carries a tag [group] whose value is [groupTag]. *)
Definition carriesGroupTag (groupTag : string) (i : ec2.Instance) : bool :=
  existsb (tagIs "group" groupTag) (ec2.Tags i).

Definition stateName (i : ec2.Instance) : option string :=
  match ec2.State i with
  | Some st => ec2.Name st
  | None => None
  end.

Definition inState (s : string) (i : ec2.Instance) : bool :=
  match stateName i with
  | Some n => (n =? s)%string
  | None => false
  end.

Definition eligible (groupTag : string) (i : ec2.Instance) : bool :=
  carriesGroupTag groupTag i && (inState "running" i || inState "pending" i).

(** The value of the last [Name] tag, [acc] when there is none. *)
Definition nameTag (tags : list ec2.Tag) (acc : string) : string :=
  fold_left (fun acc t =>
               match ec2.Key t, ec2.Value t with
               | Some k, Some v => if (k =? "Name")%string then v else acc
               | _, _ => acc
               end) tags acc.

(** The record the filter builds for an instance it keeps. *)
Definition recordOf (i : ec2.Instance) : internalInstance :=
  {| internalDNS := default "" (ec2.PrivateDnsName i);
     internalIP := default "" (ec2.PrivateIpAddress i);
     instanceType := default "" (ec2.InstanceType i);
     instanceID := default "" (ec2.InstanceId i);
     name := nameTag (ec2.Tags i) "" |}.

(** [obj] is the Backend Set entry of instance [i]. *)
Definition represents (i : ec2.Instance) (obj : internalInstance) : Prop :=
  ec2.InstanceId i = Some (instanceID obj) /\
  ec2.InstanceType i = Some (instanceType obj) /\
  ec2.PrivateDnsName i = Some (internalDNS obj) /\
  ec2.PrivateIpAddress i = Some (internalIP obj) /\
  name obj = nameTag (ec2.Tags i) "".

(** What one instance adds to the Backend Set. *)
Definition contribution (groupTag : string) (i : ec2.Instance) : list internalInstance :=
  if eligible groupTag i then [recordOf i] else [].

Definition allInstances (out : ec2.DescribeInstancesOutput) : list ec2.Instance :=
  flat_map ec2.Instances (ec2.Reservations out).

(** The pointers the tag loop dereferences. *)
Definition tagComplete (t : ec2.Tag) : bool :=
  match ec2.Key t with
  | None => false
  | Some k =>
      if (k =? "group")%string || (k =? "Name")%string
      then bool_decide (is_Some (ec2.Value t)) else true
  end.

(** The pointers the loop body dereferences on instance [i]: none is nil. *)
Definition complete (groupTag : string) (i : ec2.Instance) : bool :=
  bool_decide (is_Some (ec2.InstanceId i)) &&
  bool_decide (is_Some (ec2.InstanceType i)) &&
  forallb tagComplete (ec2.Tags i) &&
  (if carriesGroupTag groupTag i then bool_decide (is_Some (stateName i)) else true) &&
  (if eligible groupTag i
   then bool_decide (is_Some (ec2.PrivateDnsName i)) &&
        bool_decide (is_Some (ec2.PrivateIpAddress i))
   else true).

Definition foundLines (l : list internalInstance) : list Effect :=
  map (fun obj => Logged (LogFoundInstance obj)) l.

Definition extend (evs : list Effect) (w : World) : World :=
  {| files := files w; trace := trace w ++ evs |}.

(** The effects a computation adds are those after the old trace. *)
Definition added (w w' : World) (evs : list Effect) : Prop :=
  trace w' = trace w ++ evs.

(** ** Concrete worlds and inventories used in the examples *)

Definition emptyWorld : World := {| files := ∅; trace := [] |}.

(** Collaborators that answer the same way at every call. *)
Definition fixedCollaborators
    (inventory : ec2.DescribeInstancesOutput + error)
    (createFault : option error)
    (writeFault : string -> option (nat * error))
    (scriptResult : string * option error)
    (batch : list sqs.Message) : Collaborators :=
  {| DescribeInstances := fun _ _ => inventory;
     os_Create := fun _ _ => createFault;
     file_Write := fun _ _ chunk => writeFault chunk;
     CombinedOutput := fun _ _ => scriptResult;
     ReceiveMessage := fun _ => inl {| sqs.Messages := batch |};
     time_Parse := fun _ => None |}.

Definition tag (k v : string) : ec2.Tag :=
  {| ec2.Key := Some k; ec2.Value := Some v |}.

Definition instanceOf (id ty state ip : string) (tags : list ec2.Tag) : ec2.Instance :=
  {| ec2.InstanceId := Some id;
     ec2.InstanceType := Some ty;
     ec2.State := Some {| ec2.Name := Some state |};
     ec2.PrivateDnsName := Some ("ip-" +:+ ip +:+ ".internal");
     ec2.PrivateIpAddress := Some ip;
     ec2.Tags := tags |}.

Definition snapshotOf (rs : list (list ec2.Instance)) : ec2.DescribeInstancesOutput :=
  {| ec2.Reservations := map (fun l => {| ec2.Instances := l |}) rs |}.

Definition webRunning : ec2.Instance :=
  instanceOf "i-1" "m5.large" "running" "10.0.0.1" [tag "group" "web"; tag "Name" "web-a"].
Definition webStopped : ec2.Instance :=
  instanceOf "i-2" "m5.large" "stopped" "10.0.0.2" [tag "group" "web"].
Definition dbRunning : ec2.Instance :=
  instanceOf "i-3" "t3.micro" "running" "10.0.0.3" [tag "group" "db"].
Definition webPending : ec2.Instance :=
  instanceOf "i-4" "m5.large" "pending" "10.0.0.4" [tag "Name" "web-b"; tag "group" "web"].

(** Two [web] instances, one running and one stopped, and a running
    [db] instance. *)
Definition mixedSnapshot : ec2.DescribeInstancesOutput :=
  snapshotOf [[webRunning; webStopped]; [dbRunning]].

Definition mixedInventory : Collaborators :=
  fixedCollaborators (inl mixedSnapshot) None (fun _ => None) ("", None) [].

(** The template item of a record, as [getEC2Config] builds it. *)
Definition itemOf (obj : internalInstance) : templateItem :=
  {| Name := getName obj; Host := getEndpoint obj |}.

(** The Backend Set of a snapshot, as template items. *)
Definition backendItems (groupTag : string) (insts : list ec2.Instance) : list templateItem :=
  map itemOf (flat_map (contribution groupTag) insts).

(** [v] is the value of the instance's [Name] tag (of the last one, if
    the listing repeats the key). *)
Definition hasNameTag (v : string) (i : ec2.Instance) : Prop :=
  exists pre post,
    ec2.Tags i = pre ++ tag "Name" v :: post /\
    Forall (fun t => ec2.Key t <> Some "Name") post.

Definition noNameTag (i : ec2.Instance) : Prop :=
  Forall (fun t => ec2.Key t <> Some "Name") (ec2.Tags i).

(** [instanceType + instanceID] *)
Definition fallbackName (i : ec2.Instance) : string :=
  default "" (ec2.InstanceType i) +:+ default "" (ec2.InstanceId i).

(** An eligible instance whose private address is missing. *)
Definition webNoAddress : ec2.Instance :=
  {| ec2.InstanceId := Some "i-5";
     ec2.InstanceType := Some "m5.large";
     ec2.State := Some {| ec2.Name := Some "running" |};
     ec2.PrivateDnsName := Some "";
     ec2.PrivateIpAddress := None;
     ec2.Tags := [tag "group" "web"] |}.

Definition noAddressSnapshot : ec2.DescribeInstancesOutput :=
  snapshotOf [[webRunning; webNoAddress]].

Definition noAddressInventory : Collaborators :=
  fixedCollaborators (inl noAddressSnapshot) None (fun _ => None) ("", None) [].

(** An eligible instance whose private address is the empty string. *)
Definition webEmptyAddress : ec2.Instance :=
  {| ec2.InstanceId := Some "i-6";
     ec2.InstanceType := Some "m5.large";
     ec2.State := Some {| ec2.Name := Some "pending" |};
     ec2.PrivateDnsName := Some "";
     ec2.PrivateIpAddress := Some "";
     ec2.Tags := [tag "group" "web"] |}.

Definition emptyAddressInventory : Collaborators :=
  fixedCollaborators (inl (snapshotOf [[webEmptyAddress]])) None (fun _ => None)
                     ("", None) [].

(** The naming examples of the spec. *)
Definition unnamed : ec2.Instance :=
  instanceOf "i-123" "m5.large" "running" "10.0.0.7" [tag "group" "web"].
Definition namedFoo : ec2.Instance :=
  instanceOf "i-456" "m5.large" "running" "10.0.0.8" [tag "Name" "foo"; tag "group" "web"].

Definition namingSnapshot : ec2.DescribeInstancesOutput :=
  snapshotOf [[unnamed]; [namedFoo]].

Definition namingInventory : Collaborators :=
  fixedCollaborators (inl namingSnapshot) None (fun _ => None) ("", None) [].

(** The listing [l] rearranged by the positions [p]: element [k] of the
    result is element [p(k)] of [l].  A permutation of the positions of
    [l] gives a permutation of [l]. *)
Definition rearrange {A} (p : list nat) (l : list A) : list A :=
  flat_map (fun k => match nth_error l k with Some x => [x] | None => [] end) p.

(** The template items an instance contributes: one or none. *)
Definition itemsOf (groupTag : string) (i : ec2.Instance) : list templateItem :=
  map itemOf (contribution groupTag i).

Definition swappedSnapshot : ec2.DescribeInstancesOutput :=
  snapshotOf [[dbRunning]; [webPending; webStopped]; [webRunning]].

Definition orderedSnapshot : ec2.DescribeInstancesOutput :=
  snapshotOf [[webRunning; webStopped]; [dbRunning; webPending]].

Definition orderedInventory : Collaborators :=
  fixedCollaborators (inl orderedSnapshot) None (fun _ => None) ("", None) [].

Definition swappedInventory : Collaborators :=
  fixedCollaborators (inl swappedSnapshot) None (fun _ => None) ("", None) [].

(** ** Rendering and effects *)

(** The bytes a sequence of writes puts in a file, one after the other. *)
Definition joinChunks (cs : list string) : string :=
  fold_right String.append "" cs.

(** The rendered artifact: a function of the template and the items. *)
Definition rendered (t : Template) (data : list templateItem) : string :=
  joinChunks (templateChunks t data).

(** The text of a template outside its repeating units. *)
Definition staticText (t : Template) : string :=
  joinChunks (flat_map (fun n => match n with
                                 | Text s => [s]
                                 | RangeItems _ => []
                                 end) t).

Definition finalWorld {A} (r : Result A) : World :=
  match r with
  | Returns _ w => w
  | Panics w => w
  end.

(** [m] only adds effects that satisfy [P], however it ends. *)
Definition emitsOnly {A} (P : Effect -> Prop) (m : M A) : Prop :=
  forall w, exists evs,
    trace (finalWorld (m w)) = trace w ++ evs /\ Forall P evs.

Definition isLogged (e : Effect) : Prop :=
  match e with Logged _ => True | _ => False end.

Definition filterEffect (e : Effect) : Prop :=
  match e with Logged _ | EC2DescribeInstances _ => True | _ => False end.

Definition publishEffect (e : Effect) : Prop :=
  match e with Logged _ | OsCreate _ | FileWrite _ _ => True | _ => False end.

Definition reloadEffect (e : Effect) : Prop :=
  match e with Logged _ | ExecCommand _ => True | _ => False end.

(** The effects of one pass of [handleMessage]: no queue operation. *)
Definition passEffect (e : Effect) : Prop :=
  match e with
  | Logged _ | EC2DescribeInstances _ | OsCreate _ | FileWrite _ _
  | ExecCommand _ => True
  | _ => False
  end.

Definition notExec (e : Effect) : Prop :=
  match e with ExecCommand _ => False | _ => True end.

(** The file system accepts every creation and every write. *)
Definition healthyDisk (X : Collaborators) : Prop :=
  (forall w path, os_Create X w path = None) /\
  (forall w path chunk, file_Write X w path chunk = None).

Definition cfgTemplate : Template :=
  [Text "backend web "; RangeItems [BlockText "server "; FieldName;
                                    BlockText " "; FieldHost; BlockText "; "]].

Definition cfgPath : string := "/etc/haproxy/haproxy.cfg".

Definition twoItems : list templateItem :=
  [{| Name := "web-a"; Host := "10.0.0.1" |};
   {| Name := "web-b"; Host := "10.0.0.4" |}].

(** A world in which a working configuration is in place. *)
Definition configuredWorld : World :=
  {| files := {[cfgPath := "backend web server old 10.0.0.9; "]}; trace := [] |}.

(** The disk takes three more bytes of any write. *)
Definition fullDisk : Collaborators :=
  fixedCollaborators (inl mixedSnapshot) None
                     (fun _ => Some (3%nat, "no space left on device"))
                     ("", None) [].


(** Every snapshot the inventory returns can be scanned without
    dereferencing a nil member. *)
Definition inventoryComplete (X : Collaborators) : Prop :=
  forall w groupName out,
    DescribeInstances X w groupName = inl out ->
    forallb (complete groupName) (allInstances out) = true.

(** The body is a JSON object with a member for the field [Type]. *)
Definition hasTypeField (body : bodyText) : bool :=
  match body with
  | JSONText (JObject members) =>
      existsb (fun m => (foldName (fst m) =? "type")%string) members
  | _ => false
  end.

(** One message's share of the trace of a batch: the effects of its pass,
    then the request to delete it. *)
Definition passThenDelete (msg : sqs.Message) (segment : list Effect) : Prop :=
  exists pass,
    segment = pass ++ [SqsDeleteMessage (sqs.ReceiptHandle msg)] /\
    Forall passEffect pass.

(** The messages [msgs] are handled in turn from [w] to [w']: the pass of
    each message is run in the world the previous message left, it
    returns, the request to delete the message follows, and the next
    message starts from there. *)
Fixpoint handledInTurn (X : Collaborators) (t : Template) (environ : env)
    (msgs : list sqs.Message) (w w' : World) : Prop :=
  match msgs with
  | [] => w' = w
  | msg :: rest =>
      exists u,
        handleMessage X t msg environ w = Returns tt u /\
        handledInTurn X t environ rest
          (record (SqsDeleteMessage (sqs.ReceiptHandle msg)) u) w'
  end.

Definition environ0 : env :=
  {| AwsAccessKeyID := ""; AwsSecretAccessKey := "";
     AwsSqsRegion := "eu-west-1"; AwsSqsQueueName := "haproxy-events";
     AwsSnsTopicName := "autoscaling"; AwsEC2GroupName := "web";
     HaproxyFileDest := cfgPath; HaproxyReloadScript := "/usr/local/bin/reload" |}.

Definition notification : sqs.Message :=
  {| sqs.Body := Some (JSONText (JObject
       [("Type", JString "Notification"); ("MessageId", JString "m-1");
        ("TopicArn", JString "arn:aws:sns:eu-west-1:1:autoscaling");
        ("Timestamp", JString "2016-01-01T00:00:00Z");
        ("Subject", JString "Auto Scaling"); ("Message", JString "launch")]));
     sqs.ReceiptHandle := Some "rh-1" |}.

(** A body that is the JSON object without members: no [Type]. *)
Definition emptyObjectMsg : sqs.Message :=
  {| sqs.Body := Some (JSONText (JObject [])); sqs.ReceiptHandle := Some "rh-2" |}.

Definition garbageMsg : sqs.Message :=
  {| sqs.Body := Some (NotJSON "hello"); sqs.ReceiptHandle := Some "rh-3" |}.

(** No instance of group [web] is up. *)
Definition idleSnapshot : ec2.DescribeInstancesOutput :=
  snapshotOf [[webStopped]; [dbRunning]].

Definition idleInventory : Collaborators :=
  fixedCollaborators (inl idleSnapshot) None (fun _ => None) ("reloaded", None) [].

(** The reload script fails at every run. *)
Definition brokenReload : Collaborators :=
  fixedCollaborators (inl mixedSnapshot) None (fun _ => None)
                     ("", Some "exit status 1") [notification; garbageMsg; notification].

(** ** Further vocabulary: files, queue operations, more examples *)

(** [m] leaves every file as it was, however it ends. *)
Definition keepsFiles {A} (m : M A) : Prop :=
  forall w, files (finalWorld (m w)) = files w.

(** [m] changes no file other than [dest], however it ends. *)
Definition writesOnly {A} (dest : string) (m : M A) : Prop :=
  forall w q, q <> dest -> files (finalWorld (m w)) !! q = files w !! q.

(** The receipt handles of the delete requests in a trace, in order. *)
Definition deletions (evs : list Effect) : list (option string) :=
  flat_map (fun e => match e with
                     | SqsDeleteMessage h => [h]
                     | _ => []
                     end) evs.

Definition isReceive (e : Effect) : bool :=
  match e with SqsReceiveMessage => true | _ => false end.

(** The number of polls of the queue in a trace. *)
Definition polls (evs : list Effect) : nat :=
  length (List.filter isReceive evs).

(** What a turn adds when the poll fails. *)
Definition retryEffect (e : Effect) : Prop :=
  match e with
  | SqsReceiveMessage | PrintedReceiveError _ => True
  | _ => False
  end.


(** The instance with its addresses and its state taken away. *)
Definition withoutAddresses (i : ec2.Instance) : ec2.Instance :=
  {| ec2.InstanceId := ec2.InstanceId i;
     ec2.InstanceType := ec2.InstanceType i;
     ec2.State := ec2.State i;
     ec2.PrivateDnsName := None;
     ec2.PrivateIpAddress := None;
     ec2.Tags := ec2.Tags i |}.

Definition withoutState (i : ec2.Instance) : ec2.Instance :=
  {| ec2.InstanceId := ec2.InstanceId i;
     ec2.InstanceType := ec2.InstanceType i;
     ec2.State := None;
     ec2.PrivateDnsName := None;
     ec2.PrivateIpAddress := None;
     ec2.Tags := ec2.Tags i |}.

(** The inventory query fails. *)
Definition throttledInventory : Collaborators :=
  fixedCollaborators (inr "RequestLimitExceeded") None (fun _ => None) ("", None) [].

(** The queue cannot be polled. *)
Definition deafQueue : Collaborators :=
  {| DescribeInstances := fun _ _ => inl mixedSnapshot;
     os_Create := fun _ _ => None;
     file_Write := fun _ _ _ => None;
     CombinedOutput := fun _ _ => ("", None);
     ReceiveMessage := fun _ => inr "connection reset";
     time_Parse := fun _ => None |}.

(** A message that came without a body. *)
Definition bodilessMsg : sqs.Message :=
  {| sqs.Body := None; sqs.ReceiptHandle := Some "rh-4" |}.

(** An object that says nothing [snsMsg] knows, and one whose [Type] is
    not the expected discriminator. *)
Definition strangerMsg : sqs.Message :=
  {| sqs.Body := Some (JSONText (JObject
       [("foo", JNumber "1"); ("Type", JString "SubscriptionConfirmation")]));
     sqs.ReceiptHandle := Some "rh-5" |}.

(** A snapshot whose ineligible instances carry no state or address. *)
Definition sparseSnapshot : ec2.DescribeInstancesOutput :=
  snapshotOf [[withoutAddresses webStopped; webRunning]; [withoutState dbRunning]].

Definition sparseInventory : Collaborators :=
  fixedCollaborators (inl sparseSnapshot) None (fun _ => None) ("", None) [].

(** ** The monad *)

Lemma bind_Returns {A B} (m : M A) (k : A -> M B) w a w' :
  m w = Returns a w' -> bind m k w = k a w'.
Proof. intros H. unfold bind. now rewrite H. Qed.

Lemma bind_Panics {A B} (m : M A) (k : A -> M B) w w' :
  m w = Panics w' -> bind m k w = Panics w'.
Proof. intros H. unfold bind. now rewrite H. Qed.

Lemma rangeLoop_app {A S} (body : S -> A -> M S) (l1 l2 : list A) (s : S) w :
  rangeLoop body (l1 ++ l2) s w =
  bind (rangeLoop body l1 s) (rangeLoop body l2) w.
Proof.
  revert s w. induction l1 as [|x l1 IH]; intros s w; simpl.
  - reflexivity.
  - unfold bind. destruct (body s x w) as [s' w'|w']; [|reflexivity].
    rewrite IH. reflexivity.
Qed.

Lemma extend_nil w : extend [] w = w.
Proof. destruct w as [f t]. unfold extend. simpl. now rewrite app_nil_r. Qed.

Lemma extend_extend evs1 evs2 w :
  extend evs2 (extend evs1 w) = extend (evs1 ++ evs2) w.
Proof. unfold extend. simpl. now rewrite app_assoc. Qed.

Lemma record_extend e w : record e w = extend [e] w.
Proof. reflexivity. Qed.

(** ** The tag loop *)

Lemma withName_name obj : withName obj (name obj) = obj.
Proof. now destruct obj. Qed.

Lemma scanTag_spec groupName rel obj t w :
  scanTag groupName (rel, obj) t w =
  if tagComplete t
  then Returns (rel || tagIs "group" groupName t,
                withName obj (nameTag [t] (name obj))) w
  else Panics w.
Proof.
  unfold scanTag, tagComplete, tagIs, nameTag, bind, deref, ret, panic.
  destruct t as [[k|] [v|]]; simpl; try reflexivity.
  - destruct (k =? "group")%string eqn:Hg; destruct (k =? "Name")%string eqn:Hn;
      simpl; rewrite ?withName_name;
      destruct (v =? groupName)%string; simpl;
      rewrite ?orb_true_r, ?orb_false_r; reflexivity.
  - destruct (k =? "group")%string eqn:Hg; destruct (k =? "Name")%string eqn:Hn;
      simpl; rewrite ?withName_name, ?orb_false_r; reflexivity.
Qed.

Lemma scanTags_spec groupName tags : forall rel obj w,
  rangeLoop (scanTag groupName) tags (rel, obj) w =
  if forallb tagComplete tags
  then Returns (rel || existsb (tagIs "group" groupName) tags,
                withName obj (nameTag tags (name obj))) w
  else Panics w.
Proof.
  induction tags as [|t tags IH]; intros rel obj w;
    cbn [rangeLoop forallb existsb].
  - unfold ret, nameTag. cbn [fold_left]. now rewrite orb_false_r, withName_name.
  - unfold bind. rewrite scanTag_spec.
    destruct (tagComplete t); cbn [andb]; [|reflexivity].
    rewrite IH. destruct (forallb tagComplete tags); [|reflexivity].
    now rewrite orb_assoc.
Qed.

(** ** The instance loop *)

Lemma scanInstance_spec groupName instances i w :
  scanInstance groupName instances i w =
  if complete groupName i
  then Returns (instances ++ contribution groupName i)
               (extend (foundLines (contribution groupName i)) w)
  else Panics w.
Proof.
  unfold scanInstance, complete, contribution, eligible, carriesGroupTag,
    inState, stateName.
  destruct i as [[id|] [ty|] st dns ip tags]; cbn -[rangeLoop scanTag];
    try reflexivity.
  unfold bind at 1. unfold bind at 1. unfold bind at 1.
  rewrite scanTags_spec.
  destruct (forallb tagComplete tags); cbn; [|reflexivity].
  destruct (existsb (tagIs "group" groupName) tags); cbn.
  - destruct st as [[[n|]]|]; cbn; try reflexivity.
    unfold ec2.InstanceStateNameRunning, ec2.InstanceStateNamePending.
    destruct (n =? "running")%string eqn:Hr; cbn.
    + destruct dns as [dns|], ip as [ip|]; cbn; try reflexivity.
    + destruct (n =? "pending")%string eqn:Hp; cbn.
      * destruct dns as [dns|], ip as [ip|]; cbn; try reflexivity.
      * now rewrite app_nil_r, extend_nil.
  - now rewrite app_nil_r, extend_nil.
Qed.

Lemma foundLines_app l1 l2 : foundLines (l1 ++ l2) = foundLines l1 ++ foundLines l2.
Proof. apply map_app. Qed.

Lemma scanInstances_ok groupName insts : forall instances w,
  forallb (complete groupName) insts = true ->
  rangeLoop (scanInstance groupName) insts instances w =
  Returns (instances ++ flat_map (contribution groupName) insts)
          (extend (foundLines (flat_map (contribution groupName) insts)) w).
Proof.
  induction insts as [|i insts IH]; intros instances w Hc; cbn [rangeLoop flat_map].
  - unfold ret. now rewrite app_nil_r, extend_nil.
  - cbn [forallb] in Hc. apply andb_prop in Hc as [Hi Hrest].
    unfold bind. rewrite scanInstance_spec, Hi, (IH _ _ Hrest).
    now rewrite <- app_assoc, extend_extend, foundLines_app.
Qed.

Lemma scanInstances_panic groupName insts : forall instances w,
  forallb (complete groupName) insts = false ->
  exists w', rangeLoop (scanInstance groupName) insts instances w = Panics w'.
Proof.
  induction insts as [|i insts IH]; intros instances w Hc; cbn [rangeLoop].
  - discriminate.
  - cbn [forallb] in Hc. unfold bind. rewrite scanInstance_spec.
    destruct (complete groupName i); cbn [andb] in Hc.
    + apply IH, Hc.
    + now exists w.
Qed.

Lemma scanReservations_ok groupName rs : forall instances w,
  forallb (complete groupName) (flat_map ec2.Instances rs) = true ->
  rangeLoop (scanReservation groupName) rs instances w =
  Returns (instances ++ flat_map (contribution groupName) (flat_map ec2.Instances rs))
          (extend (foundLines (flat_map (contribution groupName)
                                        (flat_map ec2.Instances rs))) w).
Proof.
  induction rs as [|r rs IH]; intros instances w Hc; cbn [rangeLoop flat_map].
  - unfold ret. now rewrite app_nil_r, extend_nil.
  - cbn [flat_map] in Hc. rewrite forallb_app in Hc.
    apply andb_prop in Hc as [Hr Hrest].
    unfold bind, scanReservation at 1.
    rewrite (scanInstances_ok _ _ _ _ Hr), (IH _ _ Hrest).
    now rewrite flat_map_app, <- app_assoc, extend_extend, foundLines_app.
Qed.

Lemma scanReservations_panic groupName rs : forall instances w,
  forallb (complete groupName) (flat_map ec2.Instances rs) = false ->
  exists w', rangeLoop (scanReservation groupName) rs instances w = Panics w'.
Proof.
  induction rs as [|r rs IH]; intros instances w Hc; cbn [rangeLoop].
  - discriminate.
  - cbn [flat_map] in Hc. rewrite forallb_app in Hc.
    unfold bind, scanReservation at 1.
    destruct (forallb (complete groupName) (ec2.Instances r)) eqn:Hr.
    + rewrite (scanInstances_ok _ _ _ _ Hr). apply IH, Hc.
    + destruct (scanInstances_panic _ _ instances w Hr) as [w' Hw'].
      rewrite Hw'. now exists w'.
Qed.

Section Filter.

Variable X : Collaborators.

Lemma getInstanceListFromGroup_ok groupName w out :
  DescribeInstances X w groupName = inl out ->
  forallb (complete groupName) (allInstances out) = true ->
  getInstanceListFromGroup X groupName w =
  Returns (flat_map (contribution groupName) (allInstances out), None)
          (extend (EC2DescribeInstances groupName ::
                   foundLines (flat_map (contribution groupName) (allInstances out))) w).
Proof.
  intros Hd Hc. unfold getInstanceListFromGroup, bind, callDescribeInstances.
  rewrite Hd. rewrite (scanReservations_ok _ _ _ _ Hc). unfold ret.
  rewrite record_extend, extend_extend. reflexivity.
Qed.

Lemma getInstanceListFromGroup_panic groupName w out :
  DescribeInstances X w groupName = inl out ->
  forallb (complete groupName) (allInstances out) = false ->
  exists w', getInstanceListFromGroup X groupName w = Panics w'.
Proof.
  intros Hd Hc. unfold getInstanceListFromGroup, bind, callDescribeInstances.
  rewrite Hd.
  destruct (scanReservations_panic groupName _ []
              (record (EC2DescribeInstances groupName) w) Hc) as [w' Hw'].
  rewrite Hw'. now exists w'.
Qed.

Lemma getInstanceListFromGroup_error groupName w err :
  DescribeInstances X w groupName = inr err ->
  getInstanceListFromGroup X groupName w =
  Returns ([], Some err) (extend [EC2DescribeInstances groupName] w).
Proof.
  intros Hd. unfold getInstanceListFromGroup, bind, callDescribeInstances.
  now rewrite Hd.
Qed.

End Filter.

(** ** The Backend Set *)

Lemma contribution_filter groupTag insts :
  flat_map (contribution groupTag) insts =
  map recordOf (List.filter (eligible groupTag) insts).
Proof.
  induction insts as [|i insts IH]; cbn [flat_map List.filter]; [reflexivity|].
  unfold contribution at 1. destruct (eligible groupTag i); cbn; now rewrite IH.
Qed.

Lemma complete_represents groupTag i :
  complete groupTag i = true -> eligible groupTag i = true ->
  represents i (recordOf i).
Proof.
  unfold complete. intros Hc He. rewrite He in Hc.
  rewrite !andb_true_iff, !bool_decide_eq_true in Hc.
  destruct Hc as [[[[[id Hid] [ty Hty]] _] _] [[dns Hdns] [ip Hip]]].
  unfold represents, recordOf. cbn. rewrite Hid, Hty, Hdns, Hip.
  repeat split; reflexivity.
Qed.

Lemma complete_Forall2_represents groupTag insts :
  forallb (complete groupTag) insts = true ->
  Forall2 represents (List.filter (eligible groupTag) insts)
          (flat_map (contribution groupTag) insts).
Proof.
  rewrite contribution_filter.
  induction insts as [|i insts IH]; cbn [forallb List.filter]; intros Hc.
  - constructor.
  - apply andb_prop in Hc as [Hi Hrest].
    destruct (eligible groupTag i) eqn:He; cbn [map]; [|now apply IH].
    constructor; [now apply (complete_represents groupTag)|now apply IH].
Qed.

(** C1. When the inventory query answers with a snapshot, the filter
    returns a Backend Set whenever no nil member is dereferenced, and any
    Backend Set it returns consists, position by position, of the records
    of exactly those instances of the snapshot that carry the tag
    [group = groupTag] and are in state [running] or [pending]: an instance
    with the tag in another state, or without the tag in any state,
    contributes nothing. *)
Theorem filter_keeps_exactly_the_eligible
    (X : Collaborators) (groupTag : string) (w : World)
    (out : ec2.DescribeInstancesOutput) :
  DescribeInstances X w groupTag = inl out ->
  (forallb (complete groupTag) (allInstances out) = true ->
   exists l w', getInstanceListFromGroup X groupTag w = Returns (l, None) w') /\
  (forall l err w',
     getInstanceListFromGroup X groupTag w = Returns (l, err) w' ->
     err = None /\
     Forall2 represents (List.filter (eligible groupTag) (allInstances out)) l).
Proof.
  intros Hd. split.
  - intros Hc. rewrite (getInstanceListFromGroup_ok X _ _ _ Hd Hc). eauto.
  - intros l err w' Hrun.
    destruct (forallb (complete groupTag) (allInstances out)) eqn:Hc.
    + rewrite (getInstanceListFromGroup_ok X _ _ _ Hd Hc) in Hrun.
      injection Hrun as <- <- <-. split; [reflexivity|].
      now apply complete_Forall2_represents.
    + destruct (getInstanceListFromGroup_panic X _ _ _ Hd Hc) as [w'' Hp].
      rewrite Hp in Hrun. discriminate.
Qed.

(** The example of the spec: of two [web] instances (running, stopped)
    and a running [db] instance, group [web] keeps the running [web] one. *)
Lemma filter_keeps_exactly_the_eligible_witness :
  getInstanceListFromGroup mixedInventory "web" emptyWorld =
    Returns ([recordOf webRunning], None)
            (extend [EC2DescribeInstances "web";
                     Logged (LogFoundInstance (recordOf webRunning))] emptyWorld) /\
  Forall2 represents (List.filter (eligible "web") (allInstances mixedSnapshot))
          [recordOf webRunning].
Proof.
  split; [reflexivity|].
  apply (filter_keeps_exactly_the_eligible mixedInventory "web" emptyWorld
           mixedSnapshot eq_refl)
    with (err := None)
         (w' := extend [EC2DescribeInstances "web";
                        Logged (LogFoundInstance (recordOf webRunning))] emptyWorld).
  reflexivity.
Defined.

(** C3, as the code has it. When the inventory query answers with a
    snapshot in which an instance that satisfies both eligibility
    conditions has no private address (the pointer is nil), the filter
    does fail fast, but not by returning an error: dereferencing the
    address panics, no Backend Set and no error value reach the caller. *)
Theorem missing_address_panics
    (X : Collaborators) (groupTag : string) (w : World)
    (out : ec2.DescribeInstancesOutput) (i : ec2.Instance) :
  DescribeInstances X w groupTag = inl out ->
  In i (allInstances out) ->
  eligible groupTag i = true ->
  ec2.PrivateIpAddress i = None ->
  exists w', getInstanceListFromGroup X groupTag w = Panics w'.
Proof.
  intros Hd Hin He Hip.
  apply (getInstanceListFromGroup_panic X _ _ _ Hd).
  apply not_true_iff_false. intros Hall.
  rewrite forallb_forall in Hall. specialize (Hall i Hin).
  unfold complete in Hall. rewrite He, Hip in Hall.
  rewrite !andb_true_iff, !bool_decide_eq_true in Hall.
  destruct Hall as [_ [_ [? Hnone]]]. discriminate.
Qed.

Lemma missing_address_panics_witness :
  exists w', getInstanceListFromGroup noAddressInventory "web" emptyWorld = Panics w'.
Proof.
  apply (missing_address_panics noAddressInventory "web" emptyWorld
           noAddressSnapshot webNoAddress).
  - reflexivity.
  - right. left. reflexivity.
  - reflexivity.
  - reflexivity.
Defined.

(** C3 as stated fails: [webNoAddress] is eligible and has no private
    address, yet the pass over [noAddressSnapshot] returns no error. *)
Lemma missing_address_returns_no_error :
  In webNoAddress (allInstances noAddressSnapshot) /\
  eligible "web" webNoAddress = true /\
  ec2.PrivateIpAddress webNoAddress = None /\
  ~ (exists l err w',
       getInstanceListFromGroup noAddressInventory "web" emptyWorld =
       Returns (l, Some err) w').
Proof.
  split; [right; left; reflexivity|].
  split; [reflexivity|]. split; [reflexivity|].
  intros (l & err & w' & H). vm_compute in H. discriminate.
Qed.

(** An address that is present but empty is not checked either: the
    instance is kept, with the empty address. *)
Example empty_address_is_kept :
  exists w',
    getInstanceListFromGroup emptyAddressInventory "web" emptyWorld =
    Returns ([{| internalDNS := ""; internalIP := ""; instanceType := "m5.large";
                 instanceID := "i-6"; name := "" |}], None) w'.
Proof. eexists. reflexivity. Qed.

(** ** getEC2Config *)

Lemma itemLoop_spec (l : list internalInstance) : forall templateList w,
  rangeLoop (fun templateList instance =>
               ret (templateList ++
                    [{| Name := getName instance; Host := getEndpoint instance |}]))
            l templateList w =
  Returns (templateList ++ map itemOf l) w.
Proof.
  induction l as [|obj l IH]; intros templateList w; cbn [rangeLoop map].
  - unfold ret. now rewrite app_nil_r.
  - unfold bind, ret at 1. rewrite IH. now rewrite <- app_assoc.
Qed.

Section Config.

Variable X : Collaborators.

Lemma getEC2Config_ok groupName w out :
  DescribeInstances X w groupName = inl out ->
  forallb (complete groupName) (allInstances out) = true ->
  getEC2Config X groupName w =
  Returns (backendItems groupName (allInstances out), None)
          (extend (EC2DescribeInstances groupName ::
                   foundLines (flat_map (contribution groupName) (allInstances out))) w).
Proof.
  intros Hd Hc. unfold getEC2Config, bind.
  rewrite (getInstanceListFromGroup_ok X _ _ _ Hd Hc).
  rewrite itemLoop_spec. reflexivity.
Qed.

Lemma getEC2Config_panic groupName w out :
  DescribeInstances X w groupName = inl out ->
  forallb (complete groupName) (allInstances out) = false ->
  exists w', getEC2Config X groupName w = Panics w'.
Proof.
  intros Hd Hc. unfold getEC2Config, bind.
  destruct (getInstanceListFromGroup_panic X _ _ _ Hd Hc) as [w' Hp].
  rewrite Hp. now exists w'.
Qed.

Lemma getEC2Config_error groupName w err :
  DescribeInstances X w groupName = inr err ->
  getEC2Config X groupName w =
  Returns ([], Some err)
          (extend [EC2DescribeInstances groupName; Logged (LogEC2Error err)] w).
Proof.
  intros Hd. unfold getEC2Config, bind.
  rewrite (getInstanceListFromGroup_error X _ _ _ Hd).
  unfold log, emit, ret. now rewrite record_extend, extend_extend.
Qed.

End Config.

(** ** Display names *)

Lemma nameTag_app a b acc : nameTag (a ++ b) acc = nameTag b (nameTag a acc).
Proof. apply fold_left_app. Qed.

Lemma nameTag_absent tags : forall acc,
  Forall (fun t => ec2.Key t <> Some "Name") tags -> nameTag tags acc = acc.
Proof.
  induction tags as [|t tags IH]; intros acc Hno; [reflexivity|].
  inversion Hno as [|? ? Ht Hrest]; subst.
  change (nameTag (t :: tags) acc) with (nameTag tags (nameTag [t] acc)).
  rewrite (IH _ Hrest). unfold nameTag. cbn.
  destruct (ec2.Key t) as [k|]; [|reflexivity].
  destruct (ec2.Value t) as [v|]; [|reflexivity].
  destruct (String.eqb_spec k "Name") as [->|]; [now destruct Ht|reflexivity].
Qed.

Lemma nameTag_present v i acc :
  hasNameTag v i -> nameTag (ec2.Tags i) acc = v.
Proof.
  intros (pre & post & -> & Hpost).
  rewrite nameTag_app.
  change (nameTag (tag "Name" v :: post) (nameTag pre acc))
    with (nameTag post (nameTag [tag "Name" v] (nameTag pre acc))).
  now rewrite (nameTag_absent _ _ Hpost).
Qed.

Lemma Forall2_map_In {A B} (P : A -> B -> Prop) (f : A -> B) (l : list A) :
  (forall x, In x l -> P x (f x)) -> Forall2 P l (map f l).
Proof.
  induction l as [|x l IH]; intros H; cbn [map]; constructor.
  - apply H. now left.
  - apply IH. intros y Hy. apply H. now right.
Qed.

Lemma getName_recordOf i :
  getName (recordOf i) =
  if (nameTag (ec2.Tags i) "" =? "")%string then fallbackName i
  else nameTag (ec2.Tags i) "".
Proof.
  unfold getName, recordOf, fallbackName. cbn.
  now destruct (nameTag (ec2.Tags i) "" =? "")%string.
Qed.

(** C9. The display name of every endpoint of the Backend Set is the
    value of the instance's [Name] tag when that value is not empty, and
    [instanceType + instanceId] when the instance has no [Name] tag or an
    empty one. An instance without a [Name] tag, of type [m5.large] and
    id [i-123], is named [m5.largei-123]; one tagged [Name = foo] is
    named [foo]. *)
Theorem display_name_is_tag_or_fallback :
  (forall (X : Collaborators) (groupTag : string) (w : World)
          (out : ec2.DescribeInstancesOutput),
     DescribeInstances X w groupTag = inl out ->
     forallb (complete groupTag) (allInstances out) = true ->
     exists items w',
       getEC2Config X groupTag w = Returns (items, None) w' /\
       Forall2 (fun i item =>
                  (forall v, hasNameTag v i -> v <> "" -> Name item = v) /\
                  (noNameTag i \/ hasNameTag "" i -> Name item = fallbackName i))
               (List.filter (eligible groupTag) (allInstances out)) items) /\
  (noNameTag unnamed /\ ec2.InstanceType unnamed = Some "m5.large" /\
   ec2.InstanceId unnamed = Some "i-123" /\ hasNameTag "foo" namedFoo /\
   exists w',
     getEC2Config namingInventory "web" emptyWorld =
     Returns ([{| Name := "m5.largei-123"; Host := "10.0.0.7" |};
               {| Name := "foo"; Host := "10.0.0.8" |}], None) w').
Proof.
  split.
  - intros X groupTag w out Hd Hc.
    rewrite (getEC2Config_ok X _ _ _ Hd Hc). eexists _, _. split; [reflexivity|].
    unfold backendItems. rewrite contribution_filter, map_map.
    apply Forall2_map_In. intros i Hi.
    apply filter_In in Hi as [Hin He].
    unfold itemOf. cbn [Name]. rewrite getName_recordOf. split.
    + intros v Hv Hne. rewrite (nameTag_present _ _ _ Hv).
      destruct (String.eqb_spec v ""); [contradiction|reflexivity].
    + intros [Hno|Hempty].
      * now rewrite (nameTag_absent _ _ Hno).
      * now rewrite (nameTag_present _ _ _ Hempty).
  - split; [repeat constructor; discriminate|].
    split; [reflexivity|]. split; [reflexivity|]. split.
    + exists [], [tag "group" "web"]. split; [reflexivity|].
      repeat constructor; discriminate.
    + eexists. reflexivity.
Qed.

Lemma display_name_is_tag_or_fallback_witness :
  exists items w',
    getEC2Config namingInventory "web" emptyWorld = Returns (items, None) w' /\
    Forall2 (fun i item =>
               (forall v, hasNameTag v i -> v <> "" -> Name item = v) /\
               (noNameTag i \/ hasNameTag "" i -> Name item = fallbackName i))
            (List.filter (eligible "web") (allInstances namingSnapshot)) items.
Proof.
  apply (proj1 display_name_is_tag_or_fallback namingInventory "web" emptyWorld
           namingSnapshot); reflexivity.
Defined.

(** ** Order of the Backend Set *)

Lemma rearrange_map {A B} (f : A -> B) p (l : list A) :
  rearrange p (map f l) = map f (rearrange p l).
Proof.
  unfold rearrange. induction p as [|k p IH]; cbn [flat_map]; [reflexivity|].
  rewrite map_app, IH. f_equal.
  rewrite nth_error_map. now destruct (nth_error l k).
Qed.

Lemma rearrange_In {A} p (l : list A) x : In x (rearrange p l) -> In x l.
Proof.
  unfold rearrange. rewrite in_flat_map. intros (k & _ & Hx).
  destruct (nth_error l k) as [y|] eqn:Hk; [|destruct Hx].
  destruct Hx as [<-|[]]. eapply nth_error_In, Hk.
Qed.

Lemma rearrange_complete groupTag p insts :
  forallb (complete groupTag) insts = true ->
  forallb (complete groupTag) (rearrange p insts) = true.
Proof.
  rewrite !forallb_forall. intros H i Hi. eapply H, rearrange_In, Hi.
Qed.

Lemma backendItems_concat groupTag insts :
  backendItems groupTag insts = concat (map (itemsOf groupTag) insts).
Proof.
  unfold backendItems, itemsOf.
  induction insts as [|i insts IH]; cbn [flat_map map concat]; [reflexivity|].
  now rewrite map_app, IH.
Qed.

(** C7. The Backend Set, and with it the list of template items handed
    to the renderer, is the concatenation, in listing order (reservation
    by reservation, instance by instance), of what each instance
    contributes; nothing is sorted. Hence a snapshot whose traversal
    order is a rearrangement of another's yields the same items
    rearranged in the same way. *)
Theorem backend_order_is_listing_order
    (X X' : Collaborators) (groupTag : string) (w w' : World)
    (out out' : ec2.DescribeInstancesOutput) (p : list nat) :
  DescribeInstances X w groupTag = inl out ->
  DescribeInstances X' w' groupTag = inl out' ->
  forallb (complete groupTag) (allInstances out) = true ->
  allInstances out' = rearrange p (allInstances out) ->
  exists items items' w1 w1',
    getEC2Config X groupTag w = Returns (items, None) w1 /\
    getEC2Config X' groupTag w' = Returns (items', None) w1' /\
    items = concat (map (itemsOf groupTag) (allInstances out)) /\
    items' = concat (rearrange p (map (itemsOf groupTag) (allInstances out))).
Proof.
  intros Hd Hd' Hc Hp.
  assert (Hc' : forallb (complete groupTag) (allInstances out') = true)
    by (rewrite Hp; now apply rearrange_complete).
  rewrite (getEC2Config_ok X _ _ _ Hd Hc), (getEC2Config_ok X' _ _ _ Hd' Hc').
  eexists _, _, _, _. repeat split.
  - apply backendItems_concat.
  - now rewrite backendItems_concat, Hp, rearrange_map.
Qed.

(** Moving the instances [webRunning; webStopped; dbRunning; webPending]
    to the order [dbRunning; webPending; webStopped; webRunning] turns the
    items [web-a; web-b] into [web-b; web-a]. *)
Lemma backend_order_is_listing_order_witness :
  exists w1 w1',
    getEC2Config orderedInventory "web" emptyWorld =
      Returns ([{| Name := "web-a"; Host := "10.0.0.1" |};
                {| Name := "web-b"; Host := "10.0.0.4" |}], None) w1 /\
    getEC2Config swappedInventory "web" emptyWorld =
      Returns ([{| Name := "web-b"; Host := "10.0.0.4" |};
                {| Name := "web-a"; Host := "10.0.0.1" |}], None) w1'.
Proof.
  destruct (backend_order_is_listing_order orderedInventory swappedInventory
              "web" emptyWorld emptyWorld orderedSnapshot swappedSnapshot
              [2; 3; 1; 0]%nat eq_refl eq_refl eq_refl eq_refl)
    as (items & items' & w1 & w1' & H1 & H2 & -> & ->).
  exists w1, w1'. split; [exact H1|exact H2].
Defined.

(** ** Effects of computations *)

Lemma emitsOnly_weaken {A} (P Q : Effect -> Prop) (m : M A) :
  (forall e, P e -> Q e) -> emitsOnly P m -> emitsOnly Q m.
Proof.
  intros HPQ Hm w. destruct (Hm w) as (evs & Ht & HP).
  exists evs. split; [exact Ht|]. eapply Forall_impl; eauto.
Qed.

Lemma emitsOnly_ret {A} P (a : A) : emitsOnly P (ret a).
Proof. intros w. exists []. cbn. now rewrite app_nil_r. Qed.

Lemma emitsOnly_panic {A} P : emitsOnly P (@panic A).
Proof. intros w. exists []. cbn. now rewrite app_nil_r. Qed.

Lemma emitsOnly_deref {A} P (p : option A) : emitsOnly P (deref p).
Proof. destruct p; [apply emitsOnly_ret|apply emitsOnly_panic]. Qed.

Lemma emitsOnly_emit (P : Effect -> Prop) e : P e -> emitsOnly P (emit e).
Proof. intros He w. exists [e]. cbn. split; [reflexivity|]. now constructor. Qed.

Lemma emitsOnly_bind {A B} P (m : M A) (k : A -> M B) :
  emitsOnly P m -> (forall a, emitsOnly P (k a)) -> emitsOnly P (bind m k).
Proof.
  intros Hm Hk w. unfold bind. destruct (Hm w) as (evs & Ht & HP).
  destruct (m w) as [a w1|w1]; cbn in Ht.
  - destruct (Hk a w1) as (evs' & Ht' & HP').
    exists (evs ++ evs'). rewrite Ht', Ht, app_assoc. split; [reflexivity|].
    now apply Forall_app.
  - exists evs. now split.
Qed.

Lemma emitsOnly_rangeLoop {A S} P (body : S -> A -> M S) (l : list A) :
  (forall s x, emitsOnly P (body s x)) -> forall s, emitsOnly P (rangeLoop body l s).
Proof.
  intros Hb. induction l as [|x l IH]; intros s; cbn [rangeLoop].
  - apply emitsOnly_ret.
  - apply emitsOnly_bind; [apply Hb|apply IH].
Qed.

(** ** Strings *)

Lemma append_cons c s t : String c s +:+ t = String c (s +:+ t).
Proof. reflexivity. Qed.

Lemma append_nil_l t : "" +:+ t = t.
Proof. reflexivity. Qed.

Lemma append_nil_r s : s +:+ "" = s.
Proof.
  induction s as [|c s IH]; [reflexivity|]. now rewrite append_cons, IH.
Qed.

Lemma append_assoc a b c : (a +:+ b) +:+ c = a +:+ (b +:+ c).
Proof.
  induction a as [|x a IH]; [reflexivity|]. now rewrite !append_cons, IH.
Qed.

Lemma substring_prefix n s : exists r, s = substring 0 n s +:+ r.
Proof.
  revert n. induction s as [|c s IH]; intros [|n]; cbn [substring].
  - now exists "".
  - now exists "".
  - now exists (String c s).
  - destruct (IH n) as [r Hr]. exists r. now rewrite append_cons, <- Hr.
Qed.

Lemma joinChunks_app a b : joinChunks (a ++ b) = joinChunks a +:+ joinChunks b.
Proof.
  unfold joinChunks. induction a as [|c a IH]; cbn [fold_right app]; [reflexivity|].
  now rewrite IH, append_assoc.
Qed.

(** ** Writing the configuration file *)

Section Publish.

Variable X : Collaborators.
Variable haProxyTemplate : Template.

Lemma fileWrite_spec path chunk w s :
  files w !! path = Some s ->
  exists r w', fileWrite X path chunk w = Returns r w' /\
    (forall q, q <> path -> files w' !! q = files w !! q) /\
    match r with
    | None => files w' !! path = Some (s +:+ chunk)
    | Some _ => exists written rest,
        chunk = written +:+ rest /\ files w' !! path = Some (s +:+ written)
    end.
Proof.
  intros Hs. unfold fileWrite.
  destruct (file_Write X w path chunk) as [[n err]|]; eexists _, _;
    (split; [reflexivity|]); cbn; unfold fileContent; cbn; rewrite Hs; cbn.
  - split; [intros q Hq; now rewrite lookup_insert_ne|].
    destruct (substring_prefix n chunk) as [rest Hrest].
    exists (substring 0 n chunk), rest. split; [exact Hrest|].
    apply lookup_insert_eq.
  - split; [intros q Hq; now rewrite lookup_insert_ne|].
    apply lookup_insert_eq.
Qed.

Lemma writeChunks_spec path cs : forall w s,
  files w !! path = Some s ->
  exists r w', writeChunks X path cs w = Returns r w' /\
    (forall q, q <> path -> files w' !! q = files w !! q) /\
    match r with
    | None => files w' !! path = Some (s +:+ joinChunks cs)
    | Some _ => exists written rest,
        joinChunks cs = written +:+ rest /\
        files w' !! path = Some (s +:+ written)
    end.
Proof.
  induction cs as [|c cs IH]; intros w s Hs; cbn [writeChunks].
  - exists None, w. repeat split. cbn. now rewrite append_nil_r.
  - destruct (fileWrite_spec path c w s Hs) as (r & w1 & Hrun & Hother & Hr).
    unfold bind. rewrite Hrun. destruct r as [err|].
    + exists (Some err), w1. split; [reflexivity|]. split; [exact Hother|].
      destruct Hr as (written & rest & Hc & Hf).
      exists written, (rest +:+ joinChunks cs). split; [|exact Hf].
      change (joinChunks (c :: cs)) with (c +:+ joinChunks cs).
      now rewrite Hc, append_assoc.
    + destruct (IH w1 _ Hr) as (r & w2 & Hrun2 & Hother2 & Hr2).
      exists r, w2. split; [exact Hrun2|]. split.
      * intros q Hq. now rewrite Hother2, Hother.
      * change (joinChunks (c :: cs)) with (c +:+ joinChunks cs).
        destruct r as [err|].
        -- destruct Hr2 as (written & rest & Hj & Hf).
           exists (c +:+ written), rest. split.
           ++ now rewrite Hj, append_assoc.
           ++ now rewrite Hf, append_assoc.
        -- now rewrite Hr2, append_assoc.
Qed.

(** What [writeHaproxyConfig] leaves behind, by its result. *)
Lemma writeHaproxyConfig_spec dest data w :
  exists r w', writeHaproxyConfig X haProxyTemplate dest data w = Returns r w' /\
    (forall q, q <> dest -> files w' !! q = files w !! q) /\
    match r with
    | None =>
        os_Create X w dest = None /\
        files w' !! dest = Some (rendered haProxyTemplate data)
    | Some err =>
        (os_Create X w dest = Some err /\ files w' = files w) \/
        (os_Create X w dest = None /\
         exists written rest,
           rendered haProxyTemplate data = written +:+ rest /\
           files w' !! dest = Some written)
    end.
Proof.
  unfold writeHaproxyConfig, bind, osCreate.
  destruct (os_Create X w dest) as [err|] eqn:Hc.
  - eexists _, _. split; [reflexivity|]. cbn. split; [reflexivity|]. now left.
  - set (w1 := {| files := <[dest:=""]> (files w); trace := trace w ++ [OsCreate dest] |}).
    assert (H1 : files w1 !! dest = Some "") by apply lookup_insert_eq.
    destruct (writeChunks_spec dest (templateChunks haProxyTemplate data) w1 "" H1)
      as (r & w2 & Hrun & Hother & Hr).
    unfold templateExecute. rewrite Hrun. destruct r as [err|].
    + eexists _, _. split; [reflexivity|]. cbn. split.
      * intros q Hq. rewrite Hother by exact Hq. cbn. now rewrite lookup_insert_ne.
      * right. split; [reflexivity|]. exact Hr.
    + eexists _, _. split; [reflexivity|]. cbn. split.
      * intros q Hq. rewrite Hother by exact Hq. cbn. now rewrite lookup_insert_ne.
      * split; [reflexivity|]. exact Hr.
Qed.

Lemma emitsOnly_fileWrite path chunk : emitsOnly publishEffect (fileWrite X path chunk).
Proof.
  intros w. exists [FileWrite path chunk]. unfold fileWrite.
  destruct (file_Write X w path chunk) as [[n err]|]; cbn;
    (split; [reflexivity|now repeat constructor]).
Qed.

Lemma emitsOnly_writeChunks path cs : emitsOnly publishEffect (writeChunks X path cs).
Proof.
  induction cs as [|c cs IH]; cbn [writeChunks]; [apply emitsOnly_ret|].
  apply emitsOnly_bind; [apply emitsOnly_fileWrite|].
  intros [err|]; [apply emitsOnly_ret|exact IH].
Qed.

Lemma emitsOnly_osCreate path : emitsOnly publishEffect (osCreate X path).
Proof.
  intros w. exists [OsCreate path]. unfold osCreate.
  destruct (os_Create X w path); cbn; (split; [reflexivity|now repeat constructor]).
Qed.

Lemma emitsOnly_writeHaproxyConfig dest data :
  emitsOnly publishEffect (writeHaproxyConfig X haProxyTemplate dest data).
Proof.
  unfold writeHaproxyConfig, templateExecute, log.
  apply emitsOnly_bind; [apply emitsOnly_osCreate|].
  intros [err|].
  - apply emitsOnly_bind; [now apply emitsOnly_emit|intros; apply emitsOnly_ret].
  - apply emitsOnly_bind; [apply emitsOnly_writeChunks|].
    intros [err|];
      (apply emitsOnly_bind; [now apply emitsOnly_emit|intros; apply emitsOnly_ret]).
Qed.

End Publish.

Lemma writeChunks_healthy X path cs :
  healthyDisk X -> forall w, exists w', writeChunks X path cs w = Returns None w'.
Proof.
  intros [_ Hw]. induction cs as [|c cs IH]; intros w; cbn [writeChunks].
  - now exists w.
  - unfold bind, fileWrite. rewrite Hw. apply IH.
Qed.

Lemma writeHaproxyConfig_healthy X t dest data w :
  healthyDisk X -> exists w', writeHaproxyConfig X t dest data w = Returns None w'.
Proof.
  intros HX. unfold writeHaproxyConfig, bind, osCreate, templateExecute.
  rewrite (proj1 HX).
  match goal with
  | |- context [writeChunks X dest ?cs ?w1] =>
      destruct (writeChunks_healthy X dest cs HX w1) as [w2 H2]; rewrite H2
  end.
  now eexists.
Qed.




(** C8. Two runs of the renderer on the same template and equal lists of
    items, in any two worlds (whatever the files held before, whatever
    happened before, whatever the collaborators answer elsewhere) and to
    any destinations, leave byte-identical files whenever both succeed:
    the text is [rendered], a function of the template and the items
    alone. On a healthy disk the run does succeed. *)
Theorem rendering_is_deterministic
    (X1 X2 : Collaborators) (t : Template) (dest1 dest2 : string)
    (data : list templateItem) (w1 w2 : World) :
  (healthyDisk X1 ->
   exists w1', writeHaproxyConfig X1 t dest1 data w1 = Returns None w1') /\
  (forall w1' w2',
     writeHaproxyConfig X1 t dest1 data w1 = Returns None w1' ->
     writeHaproxyConfig X2 t dest2 data w2 = Returns None w2' ->
     files w1' !! dest1 = Some (rendered t data) /\
     files w1' !! dest1 = files w2' !! dest2).
Proof.
  split; [apply writeHaproxyConfig_healthy|].
  intros w1' w2' H1 H2.
  destruct (writeHaproxyConfig_spec X1 t dest1 data w1) as (r1 & u1 & Hr1 & _ & Hc1).
  destruct (writeHaproxyConfig_spec X2 t dest2 data w2) as (r2 & u2 & Hr2 & _ & Hc2).
  rewrite Hr1 in H1. rewrite Hr2 in H2.
  injection H1 as -> ->. injection H2 as -> ->.
  destruct Hc1 as [_ Hf1], Hc2 as [_ Hf2]. now rewrite Hf1, Hf2.
Qed.

Lemma rendering_is_deterministic_witness :
  exists w1' w2',
    writeHaproxyConfig mixedInventory cfgTemplate cfgPath twoItems configuredWorld
      = Returns None w1' /\
    writeHaproxyConfig brokenReload cfgTemplate "/tmp/haproxy.cfg" twoItems emptyWorld
      = Returns None w2' /\
    files w1' !! cfgPath = Some (rendered cfgTemplate twoItems) /\
    files w1' !! cfgPath = files w2' !! "/tmp/haproxy.cfg".
Proof.
  eexists _, _. split; [reflexivity|]. split; [reflexivity|].
  apply (proj2 (rendering_is_deterministic mixedInventory brokenReload cfgTemplate
                  cfgPath "/tmp/haproxy.cfg" twoItems configuredWorld emptyWorld));
    reflexivity.
Defined.

(** ** One pass *)

Lemma emitsOnly_returns {A} P (m : M A) w a w' :
  emitsOnly P m -> m w = Returns a w' ->
  exists evs, added w w' evs /\ Forall P evs.
Proof. intros Hm Hrun. specialize (Hm w). now rewrite Hrun in Hm. Qed.

Lemma added_trans w1 w2 w3 evs evs' :
  added w1 w2 evs -> added w2 w3 evs' -> added w1 w3 (evs ++ evs').
Proof. unfold added. intros H1 H2. now rewrite H2, H1, app_assoc. Qed.

Lemma emitsOnly_scanInstance groupName instances i :
  emitsOnly filterEffect (scanInstance groupName instances i).
Proof.
  intros w. rewrite scanInstance_spec. destruct (complete groupName i); cbn.
  - eexists. split; [reflexivity|]. unfold foundLines.
    apply Forall_map, Forall_forall. now intros.
  - exists []. now rewrite app_nil_r.
Qed.

Section Pass.

Variable X : Collaborators.
Variable haProxyTemplate : Template.

Lemma emitsOnly_getInstanceListFromGroup groupName :
  emitsOnly filterEffect (getInstanceListFromGroup X groupName).
Proof.
  unfold getInstanceListFromGroup. apply emitsOnly_bind.
  - intros w. exists [EC2DescribeInstances groupName]. cbn.
    split; [reflexivity|now repeat constructor].
  - intros [out|err]; [|apply emitsOnly_ret].
    apply emitsOnly_bind; [|intros; apply emitsOnly_ret].
    apply emitsOnly_rangeLoop. intros s r. unfold scanReservation.
    apply emitsOnly_rangeLoop. intros; apply emitsOnly_scanInstance.
Qed.

Lemma emitsOnly_getEC2Config groupName :
  emitsOnly filterEffect (getEC2Config X groupName).
Proof.
  unfold getEC2Config. apply emitsOnly_bind;
    [apply emitsOnly_getInstanceListFromGroup|].
  intros [l [err|]].
  - apply emitsOnly_bind; [now apply emitsOnly_emit|intros; apply emitsOnly_ret].
  - apply emitsOnly_bind; [|intros; apply emitsOnly_ret].
    apply emitsOnly_rangeLoop. intros; apply emitsOnly_ret.
Qed.

Lemma validateMsg_spec msg body w :
  sqs.Body msg = Some body ->
  validateMsg X msg w =
  match jsonUnmarshal X body with
  | Some err => Returns false (extend [Logged (LogUnmarshalError err)] w)
  | None => Returns true w
  end.
Proof.
  intros Hb. unfold validateMsg, bind. rewrite Hb. cbn.
  now destruct (jsonUnmarshal X body).
Qed.

Lemma emitsOnly_validateMsg msg : emitsOnly isLogged (validateMsg X msg).
Proof.
  unfold validateMsg. apply emitsOnly_bind; [apply emitsOnly_deref|].
  intros body. destruct (jsonUnmarshal X body); [|apply emitsOnly_ret].
  apply emitsOnly_bind; [now apply emitsOnly_emit|intros; apply emitsOnly_ret].
Qed.

Lemma reloadHaproxy_spec pathToScript w :
  reloadHaproxy X pathToScript w =
  Returns tt
    (extend [Logged (LogExecuting pathToScript); ExecCommand pathToScript;
             Logged (match CombinedOutput X (record (Logged (LogExecuting pathToScript)) w)
                                          pathToScript with
                     | (_, Some err) => LogRunError err
                     | (output, None) => LogCommandOutput pathToScript output
                     end)] w).
Proof.
  unfold reloadHaproxy, bind, log, emit, combinedOutput.
  destruct (CombinedOutput X _ pathToScript) as [output [err|]]; cbn;
    unfold extend, record; cbn; now rewrite <- !app_assoc.
Qed.

Lemma emitsOnly_reloadHaproxy pathToScript :
  emitsOnly reloadEffect (reloadHaproxy X pathToScript).
Proof.
  intros w. rewrite reloadHaproxy_spec. eexists. split; [reflexivity|].
  now repeat constructor.
Qed.

Lemma emitsOnly_handleMessage msg environ :
  emitsOnly passEffect (handleMessage X haProxyTemplate msg environ).
Proof.
  unfold handleMessage. apply emitsOnly_bind.
  - eapply emitsOnly_weaken; [|apply emitsOnly_validateMsg]. now intros [].
  - intros [|]; cbn [negb]; [|now apply emitsOnly_emit].
    apply emitsOnly_bind.
    + eapply emitsOnly_weaken; [|apply emitsOnly_getEC2Config]. now intros [].
    + intros [data [err|]]; [apply emitsOnly_ret|].
      apply emitsOnly_bind.
      * eapply emitsOnly_weaken; [|apply emitsOnly_writeHaproxyConfig]. now intros [].
      * intros [err|]; [apply emitsOnly_ret|].
        eapply emitsOnly_weaken; [|apply emitsOnly_reloadHaproxy]. now intros [].
Qed.

End Pass.

Section Controller.

Variable X : Collaborators.
Variable haProxyTemplate : Template.

Lemma writeHaproxyConfig_creates dest data w r w' :
  writeHaproxyConfig X haProxyTemplate dest data w = Returns r w' ->
  exists evs, added w w' (OsCreate dest :: evs).
Proof.
  unfold writeHaproxyConfig, templateExecute, bind at 1, osCreate. intros Hrun.
  destruct (os_Create X w dest) as [err|].
  - cbn in Hrun. injection Hrun as <- <-.
    exists [Logged (LogCreateError err)]. unfold added. cbn.
    now rewrite <- app_assoc.
  - match type of Hrun with
    | bind ?m ?k ?w1 = _ =>
        assert (Hk : emitsOnly publishEffect (bind m k))
    end.
    { apply emitsOnly_bind; [apply emitsOnly_writeChunks|].
      intros [err|]; unfold log;
        (apply emitsOnly_bind; [now apply emitsOnly_emit|intros; apply emitsOnly_ret]). }
    destruct (emitsOnly_returns _ _ _ _ _ Hk Hrun) as (evs & Hadd & _).
    exists evs. unfold added in *. cbn in Hadd. now rewrite Hadd, <- app_assoc.
Qed.

Lemma handleMessage_rejected msg environ w body err :
  sqs.Body msg = Some body ->
  jsonUnmarshal X body = Some err ->
  handleMessage X haProxyTemplate msg environ w =
  Returns tt (extend [Logged (LogUnmarshalError err); Logged (LogMsgInvalid msg)] w).
Proof.
  intros Hb Hj. unfold handleMessage, bind.
  rewrite (validateMsg_spec X _ _ _ Hb), Hj. cbn.
  unfold log, emit. now rewrite record_extend, extend_extend.
Qed.

Lemma handleMessage_returns msg environ w :
  is_Some (sqs.Body msg) -> inventoryComplete X ->
  exists w', handleMessage X haProxyTemplate msg environ w = Returns tt w'.
Proof.
  intros [body Hb] HX.
  destruct (jsonUnmarshal X body) as [err|] eqn:Hj.
  - rewrite (handleMessage_rejected _ _ _ _ _ Hb Hj). now eexists.
  - unfold handleMessage, bind. rewrite (validateMsg_spec X _ _ _ Hb), Hj. cbn.
    destruct (DescribeInstances X w (AwsEC2GroupName environ)) as [out|err] eqn:Hd.
    + rewrite (getEC2Config_ok X _ _ _ Hd (HX _ _ _ Hd)).
      match goal with
      | |- context [writeHaproxyConfig X haProxyTemplate ?d ?data ?w1] =>
          destruct (writeHaproxyConfig_spec X haProxyTemplate d data w1)
            as (r & w2 & Hrun & _)
      end.
      rewrite Hrun. destruct r as [err|]; [now eexists|].
      rewrite reloadHaproxy_spec. now eexists.
    + rewrite (getEC2Config_error X _ _ _ Hd). now eexists.
Qed.

End Controller.

(** C4, as the code has it. [validateMsg] rejects the bodies that
    [json.Unmarshal] cannot store in an [snsMsg]; every body that is not
    valid JSON is among them. For a rejected message [handleMessage] only
    writes two log lines: it calls neither [getEC2Config] nor
    [writeHaproxyConfig] nor [reloadHaproxy]. The absence of a [Type]
    member is no reason for rejection: the object without members is
    accepted. *)
Theorem rejected_message_runs_no_pipeline
    (X : Collaborators) (t : Template) (environ : env) :
  (forall raw, exists err, jsonUnmarshal X (NotJSON raw) = Some err) /\
  (forall msg body err w,
     sqs.Body msg = Some body ->
     jsonUnmarshal X body = Some err ->
     handleMessage X t msg environ w =
       Returns tt (extend [Logged (LogUnmarshalError err);
                           Logged (LogMsgInvalid msg)] w) /\
     Forall isLogged [Logged (LogUnmarshalError err); Logged (LogMsgInvalid msg)]) /\
  jsonUnmarshal X (JSONText (JObject [])) = None.
Proof.
  split; [intros raw; now eexists|]. split; [|reflexivity].
  intros msg body err w Hb Hj. split.
  - now apply handleMessage_rejected with (body := body).
  - now repeat constructor.
Qed.

Lemma rejected_message_runs_no_pipeline_witness :
  exists err,
    handleMessage mixedInventory cfgTemplate garbageMsg environ0 emptyWorld =
    Returns tt (extend [Logged (LogUnmarshalError err);
                        Logged (LogMsgInvalid garbageMsg)] emptyWorld).
Proof.
  eexists.
  apply (proj1 (proj2 (rejected_message_runs_no_pipeline mixedInventory cfgTemplate
                         environ0)) garbageMsg (NotJSON "hello")); reflexivity.
Defined.

(** C4 as stated fails: the body of [emptyObjectMsg] is a JSON object
    that has no [Type] member, and its pass queries the inventory,
    writes the configuration and runs the reload script. *)
Lemma message_without_Type_runs_the_pipeline :
  hasTypeField (JSONText (JObject [])) = false /\
  sqs.Body emptyObjectMsg = Some (JSONText (JObject [])) /\
  exists w',
    handleMessage mixedInventory cfgTemplate emptyObjectMsg environ0 emptyWorld =
      Returns tt w' /\
    In (EC2DescribeInstances "web") (trace w') /\
    In (OsCreate cfgPath) (trace w') /\
    In (ExecCommand "/usr/local/bin/reload") (trace w').
Proof.
  split; [reflexivity|]. split; [reflexivity|].
  eexists. split; [vm_compute; reflexivity|].
  cbn. repeat split; auto 20.
Qed.

(** C5. In a pass of [handleMessage] in which the message is valid, the
    inventory is read and [writeHaproxyConfig] returns an error, the pass
    ends there: among the effects it added there is no run of the reload
    script. *)
Theorem failed_publish_never_reloads
    (X : Collaborators) (t : Template) (msg : sqs.Message) (environ : env)
    (w w0 w1 w2 : World) (templateData : list templateItem) (err : error) :
  validateMsg X msg w = Returns true w0 ->
  getEC2Config X (AwsEC2GroupName environ) w0 = Returns (templateData, None) w1 ->
  writeHaproxyConfig X t (HaproxyFileDest environ) templateData w1 =
    Returns (Some err) w2 ->
  handleMessage X t msg environ w = Returns tt w2 /\
  exists evs, added w w2 evs /\ Forall notExec evs.
Proof.
  intros Hv Hg Hp. split.
  - unfold handleMessage, bind. rewrite Hv. cbn. rewrite Hg, Hp. reflexivity.
  - destruct (emitsOnly_returns _ _ _ _ _ (emitsOnly_validateMsg X msg) Hv)
      as (e0 & Ha0 & Hf0).
    destruct (emitsOnly_returns _ _ _ _ _ (emitsOnly_getEC2Config X _) Hg)
      as (e1 & Ha1 & Hf1).
    destruct (emitsOnly_returns _ _ _ _ _
                (emitsOnly_writeHaproxyConfig X t _ _) Hp) as (e2 & Ha2 & Hf2).
    exists ((e0 ++ e1) ++ e2). split.
    + eapply added_trans; [eapply added_trans|]; eassumption.
    + rewrite !Forall_app. repeat split.
      * eapply Forall_impl; [exact Hf0|]. now intros [].
      * eapply Forall_impl; [exact Hf1|]. now intros [].
      * eapply Forall_impl; [exact Hf2|]. now intros [].
Qed.

Lemma failed_publish_never_reloads_witness :
  exists w2,
    handleMessage fullDisk cfgTemplate notification environ0 emptyWorld =
      Returns tt w2 /\
    exists evs, added emptyWorld w2 evs /\ Forall notExec evs.
Proof.
  eexists.
  eapply (failed_publish_never_reloads fullDisk cfgTemplate notification environ0
            emptyWorld); reflexivity.
Defined.

(** ** A pass over an inventory without eligible instances *)

Lemma rendered_nil t : rendered t [] = staticText t.
Proof.
  unfold rendered, staticText, templateChunks, nodeChunks. reflexivity.
Qed.

Lemma backendItems_none groupTag insts :
  (forall i, In i insts -> eligible groupTag i = false) ->
  backendItems groupTag insts = [].
Proof.
  intros Hno. unfold backendItems. rewrite contribution_filter.
  induction insts as [|i insts IH]; [reflexivity|].
  cbn [List.filter]. rewrite (Hno i) by now left.
  apply IH. intros j Hj. apply Hno. now right.
Qed.

(** C10. When the message is valid, the inventory answers with a
    snapshot in which no instance is eligible, and the disk is healthy,
    [getEC2Config] returns the empty list without an error, and the pass
    goes on: it creates the destination, leaves in it the rendering of
    the template for no item (the text outside the repeating units, with
    no backend block) and runs the reload script. *)
Theorem no_eligible_instance_publishes_empty_backends
    (X : Collaborators) (t : Template) (msg : sqs.Message) (environ : env)
    (w : World) (body : bodyText) (out : ec2.DescribeInstancesOutput) :
  sqs.Body msg = Some body ->
  jsonUnmarshal X body = None ->
  DescribeInstances X w (AwsEC2GroupName environ) = inl out ->
  forallb (complete (AwsEC2GroupName environ)) (allInstances out) = true ->
  (forall i, In i (allInstances out) ->
             eligible (AwsEC2GroupName environ) i = false) ->
  healthyDisk X ->
  (exists w1, getEC2Config X (AwsEC2GroupName environ) w = Returns ([], None) w1) /\
  exists w' evs,
    handleMessage X t msg environ w = Returns tt w' /\
    files w' !! HaproxyFileDest environ = Some (staticText t) /\
    rendered t [] = staticText t /\
    added w w' evs /\
    In (OsCreate (HaproxyFileDest environ)) evs /\
    In (ExecCommand (HaproxyReloadScript environ)) evs.
Proof.
  intros Hb Hj Hd Hc Hno HX.
  pose proof (getEC2Config_ok X _ _ _ Hd Hc) as Hg.
  rewrite (backendItems_none _ _ Hno) in Hg.
  split; [eexists; exact Hg|].
  destruct (emitsOnly_returns _ _ _ _ _ (emitsOnly_getEC2Config X _) Hg)
    as (e1 & Ha1 & _).
  match type of Hg with _ = Returns _ ?u => set (w1 := u) in * end.
  destruct (writeHaproxyConfig_healthy X t (HaproxyFileDest environ) [] w1 HX)
    as [w2 Hp].
  destruct (writeHaproxyConfig_creates X t _ _ _ _ _ Hp) as (e2 & Ha2).
  destruct (writeHaproxyConfig_spec X t (HaproxyFileDest environ) [] w1)
    as (r & w2' & Hp' & _ & Hr).
  rewrite Hp in Hp'. injection Hp' as <- <-. destruct Hr as [_ Hfile].
  eexists _, _. split; [|split; [|split; [|split; [|split]]]].
  - unfold handleMessage, bind. rewrite (validateMsg_spec X _ _ _ Hb), Hj. cbn.
    rewrite Hg, Hp. apply reloadHaproxy_spec.
  - cbn. now rewrite Hfile, rendered_nil.
  - apply rendered_nil.
  - eapply added_trans; [eapply added_trans; [exact Ha1|exact Ha2]|].
    unfold added. reflexivity.
  - apply in_or_app. left. apply in_or_app. right. now left.
  - apply in_or_app. right. right. now left.
Qed.

Lemma no_eligible_instance_publishes_empty_backends_witness :
  (exists w1, getEC2Config idleInventory "web" configuredWorld = Returns ([], None) w1) /\
  exists w' evs,
    handleMessage idleInventory cfgTemplate notification environ0 configuredWorld =
      Returns tt w' /\
    files w' !! cfgPath = Some "backend web " /\
    rendered cfgTemplate [] = "backend web " /\
    added configuredWorld w' evs /\
    In (OsCreate cfgPath) evs /\
    In (ExecCommand "/usr/local/bin/reload") evs.
Proof.
  apply (no_eligible_instance_publishes_empty_backends idleInventory cfgTemplate
           notification environ0 configuredWorld
           (JSONText (JObject
              [("Type", JString "Notification"); ("MessageId", JString "m-1");
               ("TopicArn", JString "arn:aws:sns:eu-west-1:1:autoscaling");
               ("Timestamp", JString "2016-01-01T00:00:00Z");
               ("Subject", JString "Auto Scaling"); ("Message", JString "launch")]))
           idleSnapshot).
  - reflexivity.
  - reflexivity.
  - reflexivity.
  - reflexivity.
  - intros i [<-|[<-|[]]]; reflexivity.
  - split; reflexivity.
Defined.

(** ** A batch of messages *)

Section Batch.

Variable X : Collaborators.
Variable haProxyTemplate : Template.
Variable environ : env.

Lemma processMessages_cons msg rest w :
  processMessages X haProxyTemplate environ (msg :: rest) w =
  match handleMessage X haProxyTemplate msg environ w with
  | Returns _ w1 =>
      processMessages X haProxyTemplate environ rest
        (record (SqsDeleteMessage (sqs.ReceiptHandle msg)) w1)
  | Panics w1 => Panics w1
  end.
Proof.
  unfold processMessages. cbn [rangeLoop]. unfold bind, deleteMessage, emit.
  destruct (handleMessage X haProxyTemplate msg environ w) as [[] w1|w1];
    reflexivity.
Qed.

Lemma processMessages_returns msgs : forall w,
  Forall (fun m => is_Some (sqs.Body m)) msgs -> inventoryComplete X ->
  exists w', processMessages X haProxyTemplate environ msgs w = Returns tt w'.
Proof.
  induction msgs as [|msg rest IH]; intros w Hbodies HX.
  - now exists w.
  - inversion Hbodies as [|? ? Hb Hrest]; subst.
    rewrite processMessages_cons.
    destruct (handleMessage_returns X haProxyTemplate msg environ w Hb HX)
      as [w1 H1].
    rewrite H1. now apply IH.
Qed.

Lemma processMessages_trace msgs : forall w w',
  processMessages X haProxyTemplate environ msgs w = Returns tt w' ->
  exists segments,
    Forall2 passThenDelete msgs segments /\ added w w' (concat segments).
Proof.
  induction msgs as [|msg rest IH]; intros w w' Hrun.
  - injection Hrun as <-. exists []. split; [constructor|].
    unfold added. cbn. now rewrite app_nil_r.
  - rewrite processMessages_cons in Hrun.
    destruct (handleMessage X haProxyTemplate msg environ w) as [[] w1|w1] eqn:Hpass;
      [|discriminate].
    destruct (emitsOnly_returns _ _ _ _ _
                (emitsOnly_handleMessage X haProxyTemplate msg environ) Hpass)
      as (pass & Hadd & Hpe).
    destruct (IH _ _ Hrun) as (segments & Hsegs & Hadd').
    exists ((pass ++ [SqsDeleteMessage (sqs.ReceiptHandle msg)]) :: segments).
    split.
    + constructor; [|exact Hsegs]. now exists pass.
    + unfold added in *. cbn in Hadd'. cbn [concat].
      now rewrite Hadd', Hadd, <- !app_assoc.
Qed.

End Batch.

Section Turns.

Variable X : Collaborators.
Variable haProxyTemplate : Template.
Variable environ : env.

Lemma processMessages_handled msgs : forall w w',
  processMessages X haProxyTemplate environ msgs w = Returns tt w' <->
  handledInTurn X haProxyTemplate environ msgs w w'.
Proof.
  induction msgs as [|msg rest IH]; intros w w'; cbn [handledInTurn].
  - split; [intros H; now injection H as <-|now intros ->].
  - rewrite processMessages_cons.
    destruct (handleMessage X haProxyTemplate msg environ w) as [[] u|u].
    + rewrite IH. split; [intros H; now exists u|].
      intros (u' & Hu & H). now injection Hu as <-.
    + split; [discriminate|]. intros (u' & Hu & _). discriminate.
Qed.

Lemma processMessages_stops msgs : forall w w',
  processMessages X haProxyTemplate environ msgs w = Panics w' <->
  exists pre msg rest u,
    msgs = pre ++ msg :: rest /\
    handledInTurn X haProxyTemplate environ pre w u /\
    handleMessage X haProxyTemplate msg environ u = Panics w'.
Proof.
  induction msgs as [|msg rest IH]; intros w w'.
  - split; [discriminate|]. intros (pre & m & r & u & H & _). now destruct pre.
  - rewrite processMessages_cons.
    destruct (handleMessage X haProxyTemplate msg environ w) as [[] u|u] eqn:Hpass.
    + rewrite IH. split.
      * intros (pre & m & r & u' & -> & Hpre & Hm).
        exists (msg :: pre), m, r, u'. split; [reflexivity|]. split; [|exact Hm].
        cbn [handledInTurn]. now exists u.
      * intros (pre & m & r & u' & Hsplit & Hpre & Hm).
        destruct pre as [|msg' pre]; cbn [app] in Hsplit;
          injection Hsplit as <- ->.
        -- cbn [handledInTurn] in Hpre. subst u'. congruence.
        -- cbn [handledInTurn] in Hpre. destruct Hpre as (u0 & Hu0 & Hpre).
           rewrite Hpass in Hu0. injection Hu0 as <-.
           now exists pre, m, r, u'.
    + split.
      * intros H. injection H as <-. exists [], msg, rest, w.
        split; [reflexivity|]. split; [reflexivity|exact Hpass].
      * intros (pre & m & r & u' & Hsplit & Hpre & Hm).
        destruct pre as [|msg' pre]; cbn [app] in Hsplit;
          injection Hsplit as <- ->.
        -- cbn [handledInTurn] in Hpre. subst u'. congruence.
        -- cbn [handledInTurn] in Hpre. destruct Hpre as (u0 & Hu0 & _).
           congruence.
Qed.

End Turns.

(** C6, as the code has it. Within a batch the loop handles the messages
    in turn: it runs the pass of a message, and when the pass returns,
    whatever it did (rejected the message, failed to read the inventory,
    failed to publish, failed to reload, or succeeded), it requests the
    deletion of that message and starts the pass of the next message from
    there. The batch is processed to its end exactly when every pass
    returns; the trace it adds is then, message by message, the effects of
    the pass followed by the delete request. A failing reload script is
    only logged: the pass returns, the message is deleted and the rest of
    the batch is processed. The loop stops short only when a pass panics
    (on a nil member): the batch ends with that panic, and neither that
    message nor a later one is deleted. *)
Theorem every_returning_pass_is_followed_by_its_delete
    (X : Collaborators) (t : Template) (environ : env)
    (msgs : list sqs.Message) (w : World) :
  (forall w',
     processMessages X t environ msgs w = Returns tt w' <->
     handledInTurn X t environ msgs w w') /\
  (forall w',
     processMessages X t environ msgs w = Panics w' <->
     exists pre msg rest u,
       msgs = pre ++ msg :: rest /\
       handledInTurn X t environ pre w u /\
       handleMessage X t msg environ u = Panics w') /\
  (forall w',
     processMessages X t environ msgs w = Returns tt w' ->
     exists segments,
       Forall2 passThenDelete msgs segments /\ added w w' (concat segments)) /\
  (Forall (fun m => is_Some (sqs.Body m)) msgs -> inventoryComplete X ->
   exists w', processMessages X t environ msgs w = Returns tt w') /\
  (forall msg u0 templateData u1 u2 output err,
     validateMsg X msg w = Returns true u0 ->
     getEC2Config X (AwsEC2GroupName environ) u0 = Returns (templateData, None) u1 ->
     writeHaproxyConfig X t (HaproxyFileDest environ) templateData u1
       = Returns None u2 ->
     CombinedOutput X (record (Logged (LogExecuting (HaproxyReloadScript environ))) u2)
                    (HaproxyReloadScript environ) = (output, Some err) ->
     forall rest,
       processMessages X t environ (msg :: rest) w =
       processMessages X t environ rest
         (record (SqsDeleteMessage (sqs.ReceiptHandle msg))
            (extend [Logged (LogExecuting (HaproxyReloadScript environ));
                     ExecCommand (HaproxyReloadScript environ);
                     Logged (LogRunError err)] u2))) /\
  (forall pathToScript w0 output err,
     CombinedOutput X (record (Logged (LogExecuting pathToScript)) w0) pathToScript
       = (output, Some err) ->
     reloadHaproxy X pathToScript w0 =
     Returns tt (extend [Logged (LogExecuting pathToScript);
                         ExecCommand pathToScript;
                         Logged (LogRunError err)] w0)).
Proof.
  split; [apply processMessages_handled|].
  split; [apply processMessages_stops|].
  split; [apply processMessages_trace|].
  split; [apply processMessages_returns|].
  split.
  - intros msg u0 templateData u1 u2 output err Hv Hg Hp Hout rest.
    rewrite processMessages_cons.
    unfold handleMessage, bind. rewrite Hv. cbn [negb]. rewrite Hg, Hp.
    now rewrite reloadHaproxy_spec, Hout.
  - intros pathToScript w0 output err Hout.
    now rewrite reloadHaproxy_spec, Hout.
Qed.

Lemma complete_instanceOf groupTag id ty state ip tags :
  forallb tagComplete tags = true ->
  complete groupTag (instanceOf id ty state ip tags) = true.
Proof.
  intros Htags. unfold complete.
  destruct (carriesGroupTag groupTag (instanceOf id ty state ip tags)),
           (eligible groupTag (instanceOf id ty state ip tags));
    cbn; rewrite Htags; reflexivity.
Qed.

Lemma brokenReload_inventoryComplete : inventoryComplete brokenReload.
Proof.
  intros w groupName out Hd. injection Hd as <-.
  unfold mixedSnapshot, snapshotOf, allInstances, webRunning, webStopped, dbRunning.
  cbn [ec2.Reservations map flat_map ec2.Instances app forallb].
  rewrite !complete_instanceOf by reflexivity. reflexivity.
Qed.

(** With a reload script that always fails, a batch of a valid message, a
    rejected one and a valid one is handled in turn to its end. *)
Lemma every_returning_pass_is_followed_by_its_delete_witness :
  exists w',
    processMessages brokenReload cfgTemplate environ0
                    [notification; garbageMsg; notification] emptyWorld
      = Returns tt w' /\
    handledInTurn brokenReload cfgTemplate environ0
                  [notification; garbageMsg; notification] emptyWorld w'.
Proof.
  destruct (proj1 (proj2 (proj2 (proj2
              (every_returning_pass_is_followed_by_its_delete brokenReload cfgTemplate
                 environ0 [notification; garbageMsg; notification] emptyWorld)))))
    as [w' Hrun].
  - repeat constructor; now eexists.
  - exact brokenReload_inventoryComplete.
  - exists w'. split; [exact Hrun|].
    apply (proj1 (every_returning_pass_is_followed_by_its_delete brokenReload
                    cfgTemplate environ0
                    [notification; garbageMsg; notification] emptyWorld)).
    exact Hrun.
Defined.

(** C6 as stated fails: the pass of the first message panics on the
    missing address of an eligible instance, so the batch ends there;
    no deletion is requested and the second message is not handled. *)
Lemma panicking_pass_prevents_the_delete :
  exists w',
    processMessages noAddressInventory cfgTemplate environ0
                    [notification; notification] emptyWorld = Panics w' /\
    trace w' = [EC2DescribeInstances "web";
                Logged (LogFoundInstance (recordOf webRunning))] /\
    ~ In (SqsDeleteMessage (sqs.ReceiptHandle notification)) (trace w').
Proof.
  eexists. split; [reflexivity|]. split; [reflexivity|].
  cbn. intros [H|[H|[]]]; discriminate.
Qed.

(** The batch above, as it runs: the failed reload of the first message is
    logged, the message is deleted, and the next message is handled and
    deleted in turn. *)
Example failing_reload_batch_trace :
  trace (finalWorld (processMessages brokenReload cfgTemplate environ0
                                     [notification; garbageMsg] emptyWorld)) =
  [EC2DescribeInstances "web";
   Logged (LogFoundInstance (recordOf webRunning));
   OsCreate cfgPath;
   FileWrite cfgPath "backend web "; FileWrite cfgPath "server ";
   FileWrite cfgPath "web-a"; FileWrite cfgPath " ";
   FileWrite cfgPath "10.0.0.1"; FileWrite cfgPath "; ";
   Logged (LogPopulated [{| Name := "web-a"; Host := "10.0.0.1" |}]);
   Logged (LogExecuting "/usr/local/bin/reload");
   ExecCommand "/usr/local/bin/reload";
   Logged (LogRunError "exit status 1");
   SqsDeleteMessage (Some "rh-1");
   Logged (LogUnmarshalError "invalid character looking for beginning of value");
   Logged (LogMsgInvalid garbageMsg);
   SqsDeleteMessage (Some "rh-3")].
Proof. reflexivity. Qed.

(** ** The consume loop *)

Lemma pollOnce_receive_error X t environ w err :
  ReceiveMessage X w = inr err ->
  pollOnce X t environ w =
  Returns tt (extend [SqsReceiveMessage; PrintedReceiveError err] w).
Proof.
  intros Hr. unfold pollOnce, bind, receiveMessage. rewrite Hr.
  unfold emit. now rewrite !record_extend, extend_extend.
Qed.

Lemma pollOnce_batch X t environ w resp :
  ReceiveMessage X w = inl resp ->
  pollOnce X t environ w =
  processMessages X t environ (sqs.Messages resp) (record SqsReceiveMessage w).
Proof.
  intros Hr. unfold pollOnce, bind, receiveMessage. now rewrite Hr.
Qed.

(** The loop keeps turning: with complete inventories and messages that
    have a body, any number of turns returns. *)
Lemma consume_returns X t environ turns : forall w,
  inventoryComplete X ->
  (forall w resp, ReceiveMessage X w = inl resp ->
                  Forall (fun m => is_Some (sqs.Body m)) (sqs.Messages resp)) ->
  exists w', consume X t turns environ w = Returns tt w'.
Proof.
  induction turns as [|n IH]; intros w HX Hbodies; cbn [consume].
  - now exists w.
  - unfold bind.
    destruct (ReceiveMessage X w) as [resp|err] eqn:Hr.
    + rewrite (pollOnce_batch _ _ _ _ _ Hr).
      destruct (processMessages_returns X t environ (sqs.Messages resp)
                  (record SqsReceiveMessage w) (Hbodies _ _ Hr) HX) as [w1 H1].
      rewrite H1. now apply IH.
    + rewrite (pollOnce_receive_error _ _ _ _ _ Hr). now apply IH.
Qed.

(** * Further properties of the code *)

(** ** Files *)

Lemma keepsFiles_ret {A} (a : A) : keepsFiles (ret a).
Proof. now intros w. Qed.

Lemma keepsFiles_deref {A} (p : option A) : keepsFiles (deref p).
Proof. destruct p; now intros w. Qed.

Lemma keepsFiles_emit e : keepsFiles (emit e).
Proof. now intros w. Qed.

Lemma keepsFiles_bind {A B} (m : M A) (k : A -> M B) :
  keepsFiles m -> (forall a, keepsFiles (k a)) -> keepsFiles (bind m k).
Proof.
  intros Hm Hk w. unfold bind. specialize (Hm w).
  destruct (m w) as [a w1|w1]; cbn in Hm; [|exact Hm].
  now rewrite Hk.
Qed.

Lemma keepsFiles_rangeLoop {A S} (body : S -> A -> M S) (l : list A) :
  (forall s x, keepsFiles (body s x)) -> forall s, keepsFiles (rangeLoop body l s).
Proof.
  intros Hb. induction l as [|x l IH]; intros s; cbn [rangeLoop].
  - apply keepsFiles_ret.
  - apply keepsFiles_bind; [apply Hb|apply IH].
Qed.

Lemma keepsFiles_writesOnly {A} dest (m : M A) : keepsFiles m -> writesOnly dest m.
Proof. intros Hm w q _. now rewrite Hm. Qed.

Lemma writesOnly_bind {A B} dest (m : M A) (k : A -> M B) :
  writesOnly dest m -> (forall a, writesOnly dest (k a)) -> writesOnly dest (bind m k).
Proof.
  intros Hm Hk w q Hq. unfold bind. specialize (Hm w q Hq).
  destruct (m w) as [a w1|w1]; cbn in Hm; [|exact Hm].
  now rewrite Hk.
Qed.

Lemma writesOnly_rangeLoop {A S} dest (body : S -> A -> M S) (l : list A) :
  (forall s x, writesOnly dest (body s x)) ->
  forall s, writesOnly dest (rangeLoop body l s).
Proof.
  intros Hb. induction l as [|x l IH]; intros s; cbn [rangeLoop].
  - apply keepsFiles_writesOnly, keepsFiles_ret.
  - apply writesOnly_bind; [apply Hb|apply IH].
Qed.

Lemma emitsOnly_panics {A} P (m : M A) w w' :
  emitsOnly P m -> m w = Panics w' ->
  exists evs, added w w' evs /\ Forall P evs.
Proof. intros Hm Hrun. specialize (Hm w). now rewrite Hrun in Hm. Qed.

Lemma added_unique w w' evs evs' : added w w' evs -> added w w' evs' -> evs = evs'.
Proof. unfold added. intros H1 H2. rewrite H1 in H2. now apply app_inv_head in H2. Qed.

Lemma keepsFiles_scanInstance groupName instances i :
  keepsFiles (scanInstance groupName instances i).
Proof.
  intros w. rewrite scanInstance_spec. now destruct (complete groupName i).
Qed.

Lemma emitsOnly_scanInstance_logged groupName instances i :
  emitsOnly isLogged (scanInstance groupName instances i).
Proof.
  intros w. rewrite scanInstance_spec. destruct (complete groupName i); cbn.
  - eexists. split; [reflexivity|]. unfold foundLines.
    apply Forall_map, Forall_forall. now intros.
  - exists []. now rewrite app_nil_r.
Qed.

Lemma keepsFiles_scanReservations groupName rs instances :
  keepsFiles (rangeLoop (scanReservation groupName) rs instances).
Proof.
  apply keepsFiles_rangeLoop. intros s r. unfold scanReservation.
  apply keepsFiles_rangeLoop. intros; apply keepsFiles_scanInstance.
Qed.

Lemma emitsOnly_scanReservations groupName rs instances :
  emitsOnly isLogged (rangeLoop (scanReservation groupName) rs instances).
Proof.
  apply emitsOnly_rangeLoop. intros s r. unfold scanReservation.
  apply emitsOnly_rangeLoop. intros; apply emitsOnly_scanInstance_logged.
Qed.

Section FilesOfThePass.

Variable X : Collaborators.
Variable haProxyTemplate : Template.

Lemma keepsFiles_getInstanceListFromGroup groupName :
  keepsFiles (getInstanceListFromGroup X groupName).
Proof.
  unfold getInstanceListFromGroup. apply keepsFiles_bind; [now intros w|].
  intros [out|err]; [|apply keepsFiles_ret].
  apply keepsFiles_bind; [apply keepsFiles_scanReservations|].
  intros; apply keepsFiles_ret.
Qed.

Lemma keepsFiles_getEC2Config groupName : keepsFiles (getEC2Config X groupName).
Proof.
  unfold getEC2Config. apply keepsFiles_bind;
    [apply keepsFiles_getInstanceListFromGroup|].
  intros [l [err|]].
  - apply keepsFiles_bind; [apply keepsFiles_emit|intros; apply keepsFiles_ret].
  - apply keepsFiles_bind; [|intros; apply keepsFiles_ret].
    apply keepsFiles_rangeLoop. intros; apply keepsFiles_ret.
Qed.

Lemma keepsFiles_validateMsg msg : keepsFiles (validateMsg X msg).
Proof.
  unfold validateMsg. apply keepsFiles_bind; [apply keepsFiles_deref|].
  intros body. destruct (jsonUnmarshal X body); [|apply keepsFiles_ret].
  apply keepsFiles_bind; [apply keepsFiles_emit|intros; apply keepsFiles_ret].
Qed.

Lemma keepsFiles_reloadHaproxy pathToScript :
  keepsFiles (reloadHaproxy X pathToScript).
Proof. intros w. now rewrite reloadHaproxy_spec. Qed.

Lemma writesOnly_writeHaproxyConfig dest data :
  writesOnly dest (writeHaproxyConfig X haProxyTemplate dest data).
Proof.
  intros w q Hq.
  destruct (writeHaproxyConfig_spec X haProxyTemplate dest data w)
    as (r & w' & Hrun & Hother & _).
  rewrite Hrun. cbn. now apply Hother.
Qed.

Lemma writesOnly_handleMessage msg environ :
  writesOnly (HaproxyFileDest environ) (handleMessage X haProxyTemplate msg environ).
Proof.
  unfold handleMessage. apply writesOnly_bind.
  - apply keepsFiles_writesOnly, keepsFiles_validateMsg.
  - intros [|]; cbn [negb]; [|apply keepsFiles_writesOnly, keepsFiles_emit].
    apply writesOnly_bind.
    + apply keepsFiles_writesOnly, keepsFiles_getEC2Config.
    + intros [data [err|]]; [apply keepsFiles_writesOnly, keepsFiles_ret|].
      apply writesOnly_bind; [apply writesOnly_writeHaproxyConfig|].
      intros [err|]; apply keepsFiles_writesOnly;
        [apply keepsFiles_ret|apply keepsFiles_reloadHaproxy].
Qed.

Lemma writesOnly_processMessages environ msgs :
  writesOnly (HaproxyFileDest environ)
             (processMessages X haProxyTemplate environ msgs).
Proof.
  unfold processMessages. apply writesOnly_rangeLoop. intros [] msg.
  apply writesOnly_bind; [apply writesOnly_handleMessage|].
  intros; apply keepsFiles_writesOnly, keepsFiles_emit.
Qed.

Lemma writesOnly_pollOnce environ :
  writesOnly (HaproxyFileDest environ) (pollOnce X haProxyTemplate environ).
Proof.
  unfold pollOnce. apply writesOnly_bind; [now intros w q _|].
  intros [resp|err]; [apply writesOnly_processMessages|].
  apply keepsFiles_writesOnly, keepsFiles_emit.
Qed.

End FilesOfThePass.

(** ** The inventory filter *)

(** X1. The filter is read-only and calls the inventory once: whatever
    the outcome, no file changes and the first effect it adds is the one
    [DescribeInstances] call. When it returns a Backend Set, the rest is
    one [found instance] log line per kept instance, in the order of the
    Backend Set; when the query fails it returns the empty list and adds
    nothing else; when it panics it has only logged. *)
Theorem inventory_filter_is_read_only
    (X : Collaborators) (groupName : string) (w : World) :
  files (finalWorld (getInstanceListFromGroup X groupName w)) = files w /\
  match getInstanceListFromGroup X groupName w with
  | Returns (l, None) w' =>
      added w w' (EC2DescribeInstances groupName :: foundLines l)
  | Returns (l, Some _) w' =>
      l = [] /\ added w w' [EC2DescribeInstances groupName]
  | Panics w' =>
      exists evs, added w w' (EC2DescribeInstances groupName :: evs) /\
                  Forall isLogged evs
  end.
Proof.
  split; [apply keepsFiles_getInstanceListFromGroup|].
  destruct (DescribeInstances X w groupName) as [out|err] eqn:Hd.
  - destruct (forallb (complete groupName) (allInstances out)) eqn:Hc.
    + rewrite (getInstanceListFromGroup_ok X _ _ _ Hd Hc). reflexivity.
    + unfold getInstanceListFromGroup, bind, callDescribeInstances. rewrite Hd.
      destruct (scanReservations_panic groupName _ []
                  (record (EC2DescribeInstances groupName) w) Hc) as [w' Hw'].
      rewrite Hw'.
      destruct (emitsOnly_panics _ _ _ _
                  (emitsOnly_scanReservations groupName _ []) Hw') as (evs & Ha & Hl).
      exists evs. split; [|exact Hl].
      unfold added in *. cbn in Ha. now rewrite Ha, <- app_assoc.
  - rewrite (getInstanceListFromGroup_error X _ _ _ Hd). now split.
Qed.

(** X2. When the query answers with a snapshot, the filter panics exactly
    when some instance of the snapshot lacks a member that the loop
    dereferences on it: its id or type, the key of a tag, the value of a
    [group] or [Name] tag, the state of an instance that carries the group
    tag, or an address of an eligible instance. *)
Theorem filter_panics_exactly_on_a_nil_member
    (X : Collaborators) (groupName : string) (w : World)
    (out : ec2.DescribeInstancesOutput) :
  DescribeInstances X w groupName = inl out ->
  (exists w', getInstanceListFromGroup X groupName w = Panics w') <->
  forallb (complete groupName) (allInstances out) = false.
Proof.
  intros Hd. split.
  - intros [w' Hp].
    destruct (forallb (complete groupName) (allInstances out)) eqn:Hc;
      [|reflexivity].
    rewrite (getInstanceListFromGroup_ok X _ _ _ Hd Hc) in Hp. discriminate.
  - apply (getInstanceListFromGroup_panic X _ _ _ Hd).
Qed.

Lemma filter_panics_exactly_on_a_nil_member_witness :
  (exists w', getInstanceListFromGroup noAddressInventory "web" emptyWorld = Panics w') <->
  forallb (complete "web") (allInstances noAddressSnapshot) = false.
Proof.
  apply (filter_panics_exactly_on_a_nil_member noAddressInventory "web" emptyWorld
           noAddressSnapshot).
  reflexivity.
Defined.

(** X3. The loop reads of an instance only what it needs to decide: an
    instance that has its id, its type and complete tags, and that does
    not carry the group tag, is skipped whatever its state and addresses
    are (they may be nil); one that carries the tag but is in a state
    other than [running] and [pending] is skipped whatever its addresses
    are. Skipping adds nothing to the Backend Set and has no effect. *)
Theorem ineligible_instance_is_skipped_unread
    (groupName : string) (instances : list internalInstance)
    (i : ec2.Instance) (w : World) :
  is_Some (ec2.InstanceId i) ->
  is_Some (ec2.InstanceType i) ->
  forallb tagComplete (ec2.Tags i) = true ->
  carriesGroupTag groupName i = false \/
    (exists s, stateName i = Some s /\ s <> "running" /\ s <> "pending") ->
  scanInstance groupName instances i w = Returns instances w.
Proof.
  intros Hid Hty Htags Hwhy. rewrite scanInstance_spec.
  assert (He : eligible groupName i = false).
  { unfold eligible, inState. destruct Hwhy as [->|(s & -> & Hr & Hp)];
      [reflexivity|].
    apply String.eqb_neq in Hr, Hp. rewrite Hr, Hp. apply andb_false_r. }
  assert (Hc : complete groupName i = true).
  { unfold complete. rewrite He, Htags, !bool_decide_eq_true_2 by assumption.
    destruct Hwhy as [->|(s & Hs & _)]; [reflexivity|].
    rewrite Hs. now destruct (carriesGroupTag groupName i). }
  rewrite Hc. unfold contribution. rewrite He.
  now rewrite app_nil_r, extend_nil.
Qed.

Lemma ineligible_instance_is_skipped_unread_witness :
  scanInstance "web" [] (withoutAddresses webStopped) emptyWorld = Returns [] emptyWorld /\
  scanInstance "web" [] (withoutState dbRunning) emptyWorld = Returns [] emptyWorld.
Proof.
  split.
  - apply (ineligible_instance_is_skipped_unread "web" [] (withoutAddresses webStopped)
             emptyWorld); [now eexists|now eexists|reflexivity|].
    right. exists "stopped". repeat split; discriminate.
  - apply (ineligible_instance_is_skipped_unread "web" [] (withoutState dbRunning)
             emptyWorld); [now eexists|now eexists|reflexivity|].
    left. reflexivity.
Defined.

(** A snapshot whose stopped and foreign instances have no state or
    address is filtered like any other. *)
Example sparse_snapshot_is_filtered :
  exists w',
    getInstanceListFromGroup sparseInventory "web" emptyWorld =
    Returns ([recordOf webRunning], None) w'.
Proof. eexists. reflexivity. Qed.

(** ** The template items *)

Lemma append_eq_empty a b : a +:+ b = "" -> a = "" /\ b = "".
Proof.
  destruct a as [|c a]; intros H.
  - split; [reflexivity|exact H].
  - rewrite append_cons in H. discriminate.
Qed.

(** X4. The host of every template item is the private IP address of its
    instance (never the private DNS name), taken as the inventory gives
    it. *)
Theorem host_is_the_private_ip
    (X : Collaborators) (groupTag : string) (w : World)
    (out : ec2.DescribeInstancesOutput) :
  DescribeInstances X w groupTag = inl out ->
  forallb (complete groupTag) (allInstances out) = true ->
  exists items w',
    getEC2Config X groupTag w = Returns (items, None) w' /\
    Forall2 (fun i item => ec2.PrivateIpAddress i = Some (Host item))
            (List.filter (eligible groupTag) (allInstances out)) items.
Proof.
  intros Hd Hc. rewrite (getEC2Config_ok X _ _ _ Hd Hc).
  eexists _, _. split; [reflexivity|].
  unfold backendItems. rewrite contribution_filter, map_map.
  apply Forall2_map_In. intros i Hi. apply filter_In in Hi as [Hin He].
  rewrite forallb_forall in Hc.
  destruct (complete_represents _ _ (Hc i Hin) He) as (_ & _ & _ & Hip & _).
  exact Hip.
Qed.

Lemma host_is_the_private_ip_witness :
  exists items w',
    getEC2Config orderedInventory "web" emptyWorld = Returns (items, None) w' /\
    Forall2 (fun i item => ec2.PrivateIpAddress i = Some (Host item))
            (List.filter (eligible "web") (allInstances orderedSnapshot)) items.
Proof.
  apply (host_is_the_private_ip orderedInventory "web" emptyWorld orderedSnapshot);
    reflexivity.
Defined.

(** X5. [getName] is empty only when the name tag, the type and the id
    are all empty; so every template item has a non-empty name as soon as
    no instance of the snapshot has an empty id. *)
Theorem display_name_is_not_empty :
  (forall obj : internalInstance,
     getName obj = "" <->
     name obj = "" /\ instanceType obj = "" /\ instanceID obj = "") /\
  (forall (X : Collaborators) (groupTag : string) (w : World)
          (out : ec2.DescribeInstancesOutput),
     DescribeInstances X w groupTag = inl out ->
     forallb (complete groupTag) (allInstances out) = true ->
     (forall i, In i (allInstances out) -> ec2.InstanceId i <> Some "") ->
     exists items w',
       getEC2Config X groupTag w = Returns (items, None) w' /\
       Forall (fun item => Name item <> "") items).
Proof.
  assert (Hname : forall obj : internalInstance,
            getName obj = "" <->
            name obj = "" /\ instanceType obj = "" /\ instanceID obj = "").
  { intros obj. unfold getName.
    destruct (String.eqb_spec (name obj) "") as [Hn|Hn]; cbn [negb]; split.
    - intros H. apply append_eq_empty in H. now split.
    - intros (_ & -> & ->). reflexivity.
    - intros H. contradiction.
    - intros (H & _). contradiction. }
  split; [exact Hname|].
  intros X groupTag w out Hd Hc Hid.
  rewrite (getEC2Config_ok X _ _ _ Hd Hc). eexists _, _. split; [reflexivity|].
  unfold backendItems. rewrite contribution_filter, map_map.
  apply Forall_map, Forall_forall. intros i Hi.
  apply list_elem_of_In, filter_In in Hi as [Hin He]. cbn [itemOf Name].
  rewrite forallb_forall in Hc.
  destruct (complete_represents _ _ (Hc i Hin) He) as (Hi' & _).
  intros Hempty. apply Hname in Hempty as (_ & _ & Hempty).
  apply (Hid i Hin). now rewrite Hi', Hempty.
Qed.

Lemma display_name_is_not_empty_witness :
  exists items w',
    getEC2Config namingInventory "web" emptyWorld = Returns (items, None) w' /\
    Forall (fun item => Name item <> "") items.
Proof.
  apply (proj2 display_name_is_not_empty namingInventory "web" emptyWorld
           namingSnapshot); [reflexivity|reflexivity|].
  intros i [<-|[<-|[]]]; discriminate.
Defined.

(** ** The calls of the publish step *)

Lemma writeChunks_trace X path cs : forall w r w',
  writeChunks X path cs w = Returns r w' ->
  match r with
  | None => added w w' (map (FileWrite path) cs)
  | Some _ =>
      exists done c rest,
        cs = done ++ c :: rest /\
        added w w' (map (FileWrite path) (done ++ [c]))
  end.
Proof.
  induction cs as [|c cs IH]; intros w r w' Hrun; cbn [writeChunks] in Hrun.
  - injection Hrun as <- <-. unfold added. cbn. now rewrite app_nil_r.
  - unfold bind, fileWrite in Hrun.
    destruct (file_Write X w path c) as [[n err]|].
    + injection Hrun as <- <-. exists [], c, cs. split; reflexivity.
    + apply IH in Hrun. destruct r as [err|].
      * destruct Hrun as (done & c' & rest & -> & Ha).
        exists (c :: done), c', rest. split; [reflexivity|].
        unfold added in *. cbn in *. now rewrite Ha, <- app_assoc.
      * unfold added in *. cbn in *. now rewrite Hrun, <- app_assoc.
Qed.

Lemma writeHaproxyConfig_trace X t dest data w r w' :
  writeHaproxyConfig X t dest data w = Returns r w' ->
  match r, os_Create X w dest with
  | None, _ =>
      added w w' (OsCreate dest :: map (FileWrite dest) (templateChunks t data)
                  ++ [Logged (LogPopulated data)])
  | Some err, Some _ => added w w' [OsCreate dest; Logged (LogCreateError err)]
  | Some err, None =>
      exists done c rest,
        templateChunks t data = done ++ c :: rest /\
        added w w' (OsCreate dest :: map (FileWrite dest) (done ++ [c])
                    ++ [Logged (LogWriteError err)])
  end.
Proof.
  unfold writeHaproxyConfig, templateExecute, bind at 1, osCreate. intros Hrun.
  destruct (os_Create X w dest) as [err|].
  - cbn in Hrun. injection Hrun as <- <-. unfold added. cbn.
    now rewrite <- app_assoc.
  - unfold bind in Hrun.
    match type of Hrun with
    | context [writeChunks X dest ?cs ?w1] =>
        destruct (writeChunks X dest cs w1) as [r1 w2|w2] eqn:Hw; [|discriminate]
    end.
    apply writeChunks_trace in Hw.
    destruct r1 as [err|]; cbn in Hrun; injection Hrun as <- <-.
    + destruct Hw as (done & c & rest & Hcs & Ha).
      exists done, c, rest. split; [exact Hcs|].
      unfold added in *. cbn in *. rewrite Ha. now rewrite <- !app_assoc.
    + unfold added in *. cbn in *. rewrite Hw. now rewrite <- !app_assoc.
Qed.

(** X6. The publish step creates the destination once and then issues
    the writes of the rendering in order. When the creation fails it only
    logs the error: no write is attempted. When a write fails it stops
    there: the writes it issued are those up to and including the failing
    one, none after it, and the error is logged once. *)
Theorem failed_publish_stops_at_the_failure
    (X : Collaborators) (t : Template) (dest : string)
    (data : list templateItem) (w w' : World) (err : error) :
  writeHaproxyConfig X t dest data w = Returns (Some err) w' ->
  (os_Create X w dest <> None /\
   added w w' [OsCreate dest; Logged (LogCreateError err)]) \/
  (os_Create X w dest = None /\
   exists done c rest,
     templateChunks t data = done ++ c :: rest /\
     added w w' (OsCreate dest :: map (FileWrite dest) (done ++ [c])
                 ++ [Logged (LogWriteError err)])).
Proof.
  intros Hrun. apply writeHaproxyConfig_trace in Hrun.
  destruct (os_Create X w dest) as [err'|].
  - left. split; [discriminate|exact Hrun].
  - right. split; [reflexivity|exact Hrun].
Qed.

Lemma failed_publish_stops_at_the_failure_witness :
  exists w' done c rest,
    templateChunks cfgTemplate twoItems = done ++ c :: rest /\
    added configuredWorld w'
          (OsCreate cfgPath :: map (FileWrite cfgPath) (done ++ [c])
           ++ [Logged (LogWriteError "no space left on device")]).
Proof.
  destruct (failed_publish_stops_at_the_failure fullDisk cfgTemplate cfgPath twoItems
              configuredWorld
              (finalWorld (writeHaproxyConfig fullDisk cfgTemplate cfgPath twoItems
                                              configuredWorld))
              "no space left on device" eq_refl)
    as [[Hc _]|(_ & done & c & rest & Hcs & Ha)].
  - now destruct Hc.
  - eexists _, done, c, rest. split; [exact Hcs|exact Ha].
Defined.

(** ** The outcomes of a pass *)

Section Outcomes.

Variable X : Collaborators.
Variable haProxyTemplate : Template.

Lemma notExec_of_isLogged e : isLogged e -> notExec e.
Proof. now destruct e. Qed.

Lemma notExec_of_filterEffect e : filterEffect e -> notExec e.
Proof. now destruct e. Qed.

Lemma notExec_of_publishEffect e : publishEffect e -> notExec e.
Proof. now destruct e. Qed.

(** A pass that returns either ran no reload, or went through all four
    steps. *)
Lemma handleMessage_reloaded_or_not msg environ w w' :
  handleMessage X haProxyTemplate msg environ w = Returns tt w' ->
  (exists evs, added w w' evs /\ Forall notExec evs) \/
  (exists w0 templateData w1 w2,
     validateMsg X msg w = Returns true w0 /\
     getEC2Config X (AwsEC2GroupName environ) w0 = Returns (templateData, None) w1 /\
     writeHaproxyConfig X haProxyTemplate (HaproxyFileDest environ) templateData w1
       = Returns None w2 /\
     w' = extend [Logged (LogExecuting (HaproxyReloadScript environ));
                  ExecCommand (HaproxyReloadScript environ);
                  Logged (match CombinedOutput X
                                  (record (Logged (LogExecuting (HaproxyReloadScript environ))) w2)
                                  (HaproxyReloadScript environ) with
                          | (_, Some err) => LogRunError err
                          | (output, None) =>
                              LogCommandOutput (HaproxyReloadScript environ) output
                          end)] w2).
Proof.
  unfold handleMessage, bind. intros Hrun.
  destruct (validateMsg X msg w) as [valid w0|w0] eqn:Hv; [|discriminate].
  destruct (emitsOnly_returns _ _ _ _ _ (emitsOnly_validateMsg X msg) Hv)
    as (e0 & Ha0 & Hf0).
  assert (Hn0 : Forall notExec e0)
      by (eapply Forall_impl; [exact Hf0|exact notExec_of_isLogged]).
  destruct valid; cbn [negb] in Hrun.
  - destruct (getEC2Config X (AwsEC2GroupName environ) w0)
      as [[templateData err] w1|w1] eqn:Hg; [|discriminate].
    destruct (emitsOnly_returns _ _ _ _ _ (emitsOnly_getEC2Config X _) Hg)
      as (e1 & Ha1 & Hf1).
    assert (Hn1 : Forall notExec e1)
      by (eapply Forall_impl; [exact Hf1|exact notExec_of_filterEffect]).
    destruct err as [err|].
    + injection Hrun as <-. left. exists (e0 ++ e1). split.
      * eapply added_trans; eassumption.
      * now apply Forall_app.
    + destruct (writeHaproxyConfig X haProxyTemplate (HaproxyFileDest environ)
                  templateData w1) as [r w2|w2] eqn:Hp; [|discriminate].
      destruct (emitsOnly_returns _ _ _ _ _
                  (emitsOnly_writeHaproxyConfig X haProxyTemplate _ _) Hp)
        as (e2 & Ha2 & Hf2).
      assert (Hn2 : Forall notExec e2)
      by (eapply Forall_impl; [exact Hf2|exact notExec_of_publishEffect]).
      destruct r as [err|].
      * injection Hrun as <-. left. exists ((e0 ++ e1) ++ e2). split.
        -- eapply added_trans; [eapply added_trans|]; eassumption.
        -- rewrite !Forall_app. now repeat split.
      * rewrite reloadHaproxy_spec in Hrun. injection Hrun as <-.
        right. now exists w0, templateData, w1, w2.
  - cbn in Hrun. injection Hrun as <-. left.
    exists (e0 ++ [Logged (LogMsgInvalid msg)]). split.
    + eapply added_trans; [eassumption|]. reflexivity.
    + apply Forall_app. split; [exact Hn0|]. now repeat constructor.
Qed.

End Outcomes.

Lemma Forall_at {A} (P : A -> Prop) (l : list A) (x : A) :
  Forall P l -> In x l -> P x.
Proof. intros H Hin. rewrite List.Forall_forall in H. now apply H. Qed.

(** X7. When the message is valid and the inventory query fails, the pass
    stops after logging the error: it adds the query and one log line,
    creates and writes no file, runs no reload, and returns. *)
Theorem inventory_failure_aborts_the_pass
    (X : Collaborators) (t : Template) (msg : sqs.Message) (environ : env)
    (w : World) (body : bodyText) (err : error) :
  sqs.Body msg = Some body ->
  jsonUnmarshal X body = None ->
  DescribeInstances X w (AwsEC2GroupName environ) = inr err ->
  handleMessage X t msg environ w =
  Returns tt (extend [EC2DescribeInstances (AwsEC2GroupName environ);
                      Logged (LogEC2Error err)] w).
Proof.
  intros Hb Hj Hd. unfold handleMessage, bind.
  rewrite (validateMsg_spec X _ _ _ Hb), Hj. cbn.
  now rewrite (getEC2Config_error X _ _ _ Hd).
Qed.

Lemma inventory_failure_aborts_the_pass_witness :
  handleMessage throttledInventory cfgTemplate strangerMsg environ0 configuredWorld =
  Returns tt (extend [EC2DescribeInstances "web";
                      Logged (LogEC2Error "RequestLimitExceeded")] configuredWorld).
Proof.
  apply (inventory_failure_aborts_the_pass throttledInventory cfgTemplate strangerMsg
           environ0 configuredWorld
           (JSONText (JObject [("foo", JNumber "1");
                               ("Type", JString "SubscriptionConfirmation")])));
    reflexivity.
Defined.

(** X8. The reload script runs only behind a complete publish: when a
    pass that returns has run a command, the command is the configured
    reload script, and the destination file holds, whole, the rendering
    of the items the pass logged as populated. *)
Theorem reload_runs_only_after_a_full_publish
    (X : Collaborators) (t : Template) (msg : sqs.Message) (environ : env)
    (w w' : World) (evs : list Effect) (pathToScript : string) :
  handleMessage X t msg environ w = Returns tt w' ->
  added w w' evs ->
  In (ExecCommand pathToScript) evs ->
  pathToScript = HaproxyReloadScript environ /\
  exists templateData,
    In (Logged (LogPopulated templateData)) evs /\
    files w' !! HaproxyFileDest environ = Some (rendered t templateData).
Proof.
  intros Hrun Hadd Hin.
  destruct (handleMessage_reloaded_or_not X t _ _ _ _ Hrun)
    as [(evs' & Ha & Hn)|(w0 & data & w1 & w2 & Hv & Hg & Hp & ->)].
  - rewrite (added_unique _ _ _ _ Hadd Ha) in Hin.
    destruct (Forall_at _ _ _ Hn Hin).
  - destruct (emitsOnly_returns _ _ _ _ _ (emitsOnly_validateMsg X msg) Hv)
      as (e0 & Ha0 & Hf0).
    destruct (emitsOnly_returns _ _ _ _ _ (emitsOnly_getEC2Config X _) Hg)
      as (e1 & Ha1 & Hf1).
    pose proof (writeHaproxyConfig_trace X t _ _ _ _ _ Hp) as Ha2. cbn in Ha2.
    destruct (writeHaproxyConfig_spec X t (HaproxyFileDest environ) data w1)
      as (r & w2' & Hp' & _ & Hr).
    rewrite Hp in Hp'. injection Hp' as <- <-. destruct Hr as [_ Hfile].
    match type of Hadd with
    | added _ (extend ?last _) _ =>
        assert (Hall : added w (extend last w2) (((e0 ++ e1) ++ _) ++ last))
          by (eapply added_trans; [eapply added_trans;
                [eapply added_trans|]; eassumption|reflexivity])
    end.
    rewrite (added_unique _ _ _ _ Hadd Hall) in Hin |- *. clear Hadd Hall.
    rewrite !in_app_iff in Hin.
    destruct Hin as [[[Hin|Hin]|Hin]|Hin].
    + destruct (Forall_at _ _ _ Hf0 Hin).
    + destruct (Forall_at _ _ _ Hf1 Hin).
    + destruct Hin as [Hin|Hin]; [discriminate|].
      apply in_app_iff in Hin as [Hin|[Hin|[]]]; [|discriminate].
      apply in_map_iff in Hin as (c & Hc & _). discriminate.
    + destruct Hin as [Hin|[Hin|[Hin|[]]]]; try discriminate.
      injection Hin as <-. split; [reflexivity|].
      exists data. split; [|exact Hfile].
      rewrite !in_app_iff. left. right. right. rewrite in_app_iff. right. now left.
Qed.

Lemma reload_runs_only_after_a_full_publish_witness :
  exists templateData,
    In (Logged (LogPopulated templateData))
       (trace (finalWorld (handleMessage mixedInventory cfgTemplate notification
                                         environ0 emptyWorld))) /\
    files (finalWorld (handleMessage mixedInventory cfgTemplate notification
                                     environ0 emptyWorld)) !! cfgPath
    = Some (rendered cfgTemplate templateData).
Proof.
  apply (reload_runs_only_after_a_full_publish mixedInventory cfgTemplate notification
           environ0 emptyWorld _ _ "/usr/local/bin/reload" eq_refl eq_refl).
  cbn. auto 20.
Defined.

(** X9. A pass can panic only before it touches the file system: when
    [handleMessage] panics, every file is as it was, and the pass has at
    most queried the inventory and logged; it has created or written no
    file and run no command. *)
Theorem panicking_pass_touches_no_file
    (X : Collaborators) (t : Template) (msg : sqs.Message) (environ : env)
    (w w' : World) :
  handleMessage X t msg environ w = Panics w' ->
  files w' = files w /\
  exists evs, added w w' evs /\ Forall filterEffect evs.
Proof.
  unfold handleMessage, bind. intros Hrun.
  pose proof (keepsFiles_validateMsg X msg w) as Hk0.
  destruct (validateMsg X msg w) as [valid w0|w0] eqn:Hv.
  - destruct (emitsOnly_returns _ _ _ _ _ (emitsOnly_validateMsg X msg) Hv)
      as (e0 & Ha0 & Hf0).
    destruct valid; cbn [negb] in Hrun; [|discriminate].
    pose proof (keepsFiles_getEC2Config X (AwsEC2GroupName environ) w0) as Hk1.
    destruct (getEC2Config X (AwsEC2GroupName environ) w0)
      as [[templateData err] w1|w1] eqn:Hg.
    + destruct err as [err|]; [discriminate|].
      destruct (writeHaproxyConfig_spec X t (HaproxyFileDest environ) templateData w1)
        as (r & w2 & Hp & _).
      rewrite Hp in Hrun. destruct r; [discriminate|].
      rewrite reloadHaproxy_spec in Hrun. discriminate.
    + injection Hrun as <-. cbn in Hk0, Hk1. split; [congruence|].
      destruct (emitsOnly_panics _ _ _ _ (emitsOnly_getEC2Config X _) Hg)
        as (e1 & Ha1 & Hf1).
      exists (e0 ++ e1). split; [eapply added_trans; eassumption|].
      apply Forall_app. split; [|exact Hf1].
      eapply Forall_impl; [exact Hf0|]. now intros [].
  - injection Hrun as <-. cbn in Hk0. split; [exact Hk0|].
    destruct (emitsOnly_panics _ _ _ _ (emitsOnly_validateMsg X msg) Hv)
      as (e0 & Ha0 & Hf0).
    exists e0. split; [exact Ha0|].
    eapply Forall_impl; [exact Hf0|]. now intros [].
Qed.

Lemma panicking_pass_touches_no_file_witness :
  exists w',
    handleMessage noAddressInventory cfgTemplate notification environ0 configuredWorld
      = Panics w' /\
    files w' = files configuredWorld /\
    exists evs, added configuredWorld w' evs /\ Forall filterEffect evs.
Proof.
  eexists. split; [reflexivity|].
  apply (panicking_pass_touches_no_file noAddressInventory cfgTemplate notification
           environ0 configuredWorld).
  reflexivity.
Defined.

(** ** The loop *)

Lemma deletions_app a b : deletions (a ++ b) = deletions a ++ deletions b.
Proof. apply flat_map_app. Qed.

Lemma polls_app a b : polls (a ++ b) = (polls a + polls b)%nat.
Proof. unfold polls. now rewrite List.filter_app, length_app. Qed.

Lemma passEffect_quiet pass :
  Forall passEffect pass -> deletions pass = [] /\ polls pass = 0%nat.
Proof.
  induction 1 as [|e pass He _ [IHd IHp]]; [now split|].
  change (e :: pass) with ([e] ++ pass). rewrite deletions_app, polls_app, IHd, IHp.
  now destruct e.
Qed.

Lemma segments_quiet msgs segments :
  Forall2 passThenDelete msgs segments ->
  deletions (concat segments) = map sqs.ReceiptHandle msgs /\
  polls (concat segments) = 0%nat.
Proof.
  induction 1 as [|msg seg msgs segments (pass & -> & Hpass) _ [IHd IHp]];
    [now split|].
  cbn [concat map]. rewrite !deletions_app, !polls_app, IHd, IHp.
  destruct (passEffect_quiet _ Hpass) as [-> ->]. now split.
Qed.

Section Loop.

Variable X : Collaborators.
Variable haProxyTemplate : Template.
Variable environ : env.

Lemma handleMessage_bodiless msg w :
  sqs.Body msg = None ->
  handleMessage X haProxyTemplate msg environ w = Panics w.
Proof.
  intros Hb. unfold handleMessage, bind, validateMsg, bind. now rewrite Hb.
Qed.

Lemma processMessages_app pre rest w w1 :
  processMessages X haProxyTemplate environ pre w = Returns tt w1 ->
  processMessages X haProxyTemplate environ (pre ++ rest) w =
  processMessages X haProxyTemplate environ rest w1.
Proof.
  unfold processMessages. intros Hpre. rewrite rangeLoop_app.
  apply (bind_Returns _ _ _ _ _ Hpre).
Qed.

Lemma pollOnce_trace w w1 :
  pollOnce X haProxyTemplate environ w = Returns tt w1 ->
  exists evs, added w w1 (SqsReceiveMessage :: evs) /\ polls evs = 0%nat.
Proof.
  intros Hrun. destruct (ReceiveMessage X w) as [resp|err] eqn:Hr.
  - rewrite (pollOnce_batch _ _ _ _ _ Hr) in Hrun.
    destruct (processMessages_trace _ _ _ _ _ _ Hrun) as (segments & Hsegs & Ha).
    exists (concat segments). split.
    + unfold added in *. cbn in Ha. now rewrite Ha, <- app_assoc.
    + apply (segments_quiet _ _ Hsegs).
  - rewrite (pollOnce_receive_error _ _ _ _ _ Hr) in Hrun. injection Hrun as <-.
    now exists [PrintedReceiveError err].
Qed.

Lemma consume_extends turns : forall w w',
  consume X haProxyTemplate turns environ w = Returns tt w' ->
  exists evs, added w w' evs.
Proof.
  induction turns as [|n IH]; intros w w' Hrun; cbn [consume] in Hrun.
  - injection Hrun as <-. exists []. unfold added. now rewrite app_nil_r.
  - unfold bind in Hrun.
    destruct (pollOnce X haProxyTemplate environ w) as [[] w1|w1] eqn:Hpoll;
      [|discriminate].
    destruct (pollOnce_trace _ _ Hpoll) as (e1 & Ha1 & _).
    destruct (IH _ _ Hrun) as (e2 & Ha2).
    eexists. eapply added_trans; eassumption.
Qed.

End Loop.

(** X10. Whatever happens in any number of turns of the loop, the only
    file the program ever changes is [HaproxyFileDest]. *)
Theorem loop_changes_only_the_destination
    (X : Collaborators) (t : Template) (environ : env) (turns : nat)
    (w : World) (q : string) :
  q <> HaproxyFileDest environ ->
  files (finalWorld (consume X t turns environ w)) !! q = files w !! q.
Proof.
  intros Hq. revert w.
  assert (H : writesOnly (HaproxyFileDest environ) (consume X t turns environ)).
  { induction turns as [|n IH]; cbn [consume].
    - apply keepsFiles_writesOnly, keepsFiles_ret.
    - apply writesOnly_bind; [apply writesOnly_pollOnce|now intros]. }
  intros w. now apply H.
Qed.

Lemma loop_changes_only_the_destination_witness :
  files (finalWorld (consume brokenReload cfgTemplate 2 environ0 configuredWorld))
    !! "/etc/passwd"
  = files configuredWorld !! "/etc/passwd".
Proof.
  apply (loop_changes_only_the_destination brokenReload cfgTemplate environ0 2
           configuredWorld "/etc/passwd").
  discriminate.
Defined.

(** X11. A message without a body stops the loop: when the messages
    before it have been handled, its pass panics at once, and the batch
    ends there with the deletions of the earlier messages only; neither
    this message nor any later one is deleted. *)
Theorem bodiless_message_stops_the_batch
    (X : Collaborators) (t : Template) (environ : env)
    (pre rest : list sqs.Message) (msg : sqs.Message) (w : World) :
  Forall (fun m => is_Some (sqs.Body m)) pre ->
  inventoryComplete X ->
  sqs.Body msg = None ->
  exists w' evs,
    processMessages X t environ (pre ++ msg :: rest) w = Panics w' /\
    added w w' evs /\
    deletions evs = map sqs.ReceiptHandle pre.
Proof.
  intros Hpre HX Hb.
  destruct (processMessages_returns X t environ pre w Hpre HX) as [w1 H1].
  destruct (processMessages_trace _ _ _ _ _ _ H1) as (segments & Hsegs & Ha).
  exists w1, (concat segments).
  rewrite (processMessages_app _ _ _ _ _ _ _ H1), processMessages_cons,
    (handleMessage_bodiless _ _ _ _ _ Hb).
  split; [reflexivity|]. split; [exact Ha|].
  apply (segments_quiet _ _ Hsegs).
Qed.

Lemma bodiless_message_stops_the_batch_witness :
  exists w' evs,
    processMessages brokenReload cfgTemplate environ0
                    ([notification; garbageMsg] ++ bodilessMsg :: [notification])
                    emptyWorld = Panics w' /\
    added emptyWorld w' evs /\
    deletions evs = [Some "rh-1"; Some "rh-3"].
Proof.
  apply (bodiless_message_stops_the_batch brokenReload cfgTemplate environ0
           [notification; garbageMsg] [notification] bodilessMsg emptyWorld).
  - repeat constructor; now eexists.
  - exact brokenReload_inventoryComplete.
  - reflexivity.
Defined.

(** X12. While the queue cannot be polled the loop only retries: any
    number of turns returns, each turn having polled once and printed the
    error; no message is handled, nothing is deleted, no file changes. *)
Theorem receive_errors_are_retried
    (X : Collaborators) (t : Template) (environ : env) (turns : nat) (w : World) :
  (forall w0, exists err, ReceiveMessage X w0 = inr err) ->
  exists w' evs,
    consume X t turns environ w = Returns tt w' /\
    files w' = files w /\
    added w w' evs /\
    Forall retryEffect evs /\
    polls evs = turns /\ length evs = (2 * turns)%nat.
Proof.
  intros Hdeaf. revert w. induction turns as [|n IH]; intros w; cbn [consume].
  - exists w, []. repeat split; [|constructor].
    unfold added. now rewrite app_nil_r.
  - destruct (Hdeaf w) as [err Hr]. unfold bind.
    rewrite (pollOnce_receive_error _ _ _ _ _ Hr).
    destruct (IH (extend [SqsReceiveMessage; PrintedReceiveError err] w))
      as (w' & evs & Hrun & Hfiles & Ha & Hf & Hp & Hl).
    exists w', ([SqsReceiveMessage; PrintedReceiveError err] ++ evs).
    split; [exact Hrun|]. split; [exact Hfiles|]. split.
    + eapply added_trans; [|exact Ha]. reflexivity.
    + split; [apply Forall_app; split; [now repeat constructor|exact Hf]|].
      rewrite polls_app, length_app, Hp, Hl. cbn. split; lia.
Qed.

Lemma receive_errors_are_retried_witness :
  exists w' evs,
    consume deafQueue cfgTemplate 3 environ0 configuredWorld = Returns tt w' /\
    files w' = files configuredWorld /\
    added configuredWorld w' evs /\
    Forall retryEffect evs /\
    polls evs = 3%nat /\ length evs = 6%nat.
Proof.
  apply (receive_errors_are_retried deafQueue cfgTemplate environ0 3 configuredWorld).
  intros w0. now exists "connection reset".
Defined.

(** X13. Every turn of the loop polls the queue exactly once, whatever
    the poll returns and whatever the passes of its messages do: the
    trace of [turns] turns that return holds [turns] polls. *)
Theorem each_turn_polls_once
    (X : Collaborators) (t : Template) (environ : env) (turns : nat)
    (w w' : World) (evs : list Effect) :
  consume X t turns environ w = Returns tt w' ->
  added w w' evs ->
  polls evs = turns.
Proof.
  revert w evs. induction turns as [|n IH]; intros w evs Hrun Ha;
    cbn [consume] in Hrun.
  - injection Hrun as <-.
    assert (H0 : added w w []) by (unfold added; now rewrite app_nil_r).
    now rewrite (added_unique _ _ _ _ Ha H0).
  - unfold bind in Hrun.
    destruct (pollOnce X t environ w) as [[] w1|w1] eqn:Hpoll; [|discriminate].
    destruct (pollOnce_trace _ _ _ _ _ Hpoll) as (e1 & Ha1 & Hp1).
    assert (Hrest : exists e2, added w1 w' e2)
      by (eapply consume_extends; exact Hrun).
    destruct Hrest as [e2 Ha2].
    rewrite (added_unique _ _ _ _ Ha (added_trans _ _ _ _ _ Ha1 Ha2)).
    change (SqsReceiveMessage :: e1) with ([SqsReceiveMessage] ++ e1).
    rewrite !polls_app, Hp1, (IH _ _ Hrun Ha2). reflexivity.
Qed.

Lemma each_turn_polls_once_witness :
  polls (trace (finalWorld (consume brokenReload cfgTemplate 2 environ0 emptyWorld)))
  = 2%nat.
Proof.
  apply (each_turn_polls_once brokenReload cfgTemplate environ0 2 emptyWorld
           (finalWorld (consume brokenReload cfgTemplate 2 environ0 emptyWorld)));
    reflexivity.
Defined.

(** ** What validation lets through *)




(** Keys are matched as [encoding/json] folds them: a key spelt with the
    long s names the field [Message], so a number under it is a type
    error and the message is rejected. *)
Example long_s_key_names_a_field :
  fieldFor "Meſſage" = Some StringField /\
  fieldFor "timeſtamp" = Some TimeField /\
  exists err,
    validateMsg throttledInventory
      {| sqs.Body := Some (JSONText (JObject [("Meſſage", JNumber "1")]));
         sqs.ReceiptHandle := None |} emptyWorld
    = Returns false (extend [Logged (LogUnmarshalError err)] emptyWorld).
Proof. split; [reflexivity|]. split; [reflexivity|]. eexists. reflexivity. Qed.

(** ** The whole pass *)

(** X15. A pass on a valid message, a snapshot that can be scanned and a
    healthy disk goes through: it returns, the destination file holds
    exactly the rendering of the items of the eligible instances of the
    snapshot, in listing order, whatever the file held before, no other
    file has changed, and the reload script has been run after the
    file was written. *)
Theorem successful_pass_publishes_the_backend_set
    (X : Collaborators) (t : Template) (msg : sqs.Message) (environ : env)
    (w : World) (body : bodyText) (out : ec2.DescribeInstancesOutput) :
  sqs.Body msg = Some body ->
  jsonUnmarshal X body = None ->
  DescribeInstances X w (AwsEC2GroupName environ) = inl out ->
  forallb (complete (AwsEC2GroupName environ)) (allInstances out) = true ->
  healthyDisk X ->
  exists w' before after,
    handleMessage X t msg environ w = Returns tt w' /\
    files w' !! HaproxyFileDest environ =
      Some (rendered t (map (fun i => itemOf (recordOf i))
                            (List.filter (eligible (AwsEC2GroupName environ))
                                         (allInstances out)))) /\
    (forall q, q <> HaproxyFileDest environ -> files w' !! q = files w !! q) /\
    added w w' (before ++ ExecCommand (HaproxyReloadScript environ) :: after) /\
    In (OsCreate (HaproxyFileDest environ)) before /\
    Forall isLogged after.
Proof.
  intros Hb Hj Hd Hc HX.
  pose proof (getEC2Config_ok X _ _ _ Hd Hc) as Hg.
  unfold backendItems in Hg. rewrite contribution_filter, map_map in Hg.
  destruct (emitsOnly_returns _ _ _ _ _ (emitsOnly_getEC2Config X _) Hg)
    as (e1 & Ha1 & _).
  match type of Hg with _ = Returns (?d, _) ?u => set (data := d) in *; set (w1 := u) in * end.
  destruct (writeHaproxyConfig_healthy X t (HaproxyFileDest environ) data w1 HX)
    as [w2 Hp].
  destruct (writeHaproxyConfig_creates X t _ _ _ _ _ Hp) as (e2 & Ha2).
  destruct (writeHaproxyConfig_spec X t (HaproxyFileDest environ) data w1)
    as (r & w2' & Hp' & Hother & Hr).
  rewrite Hp in Hp'. injection Hp' as <- <-. destruct Hr as [_ Hfile].
  eexists _, (e1 ++ OsCreate (HaproxyFileDest environ) :: e2
              ++ [Logged (LogExecuting (HaproxyReloadScript environ))]), [_].
  split; [|split; [|split; [|split; [|split]]]].
  - unfold handleMessage, bind. rewrite (validateMsg_spec X _ _ _ Hb), Hj. cbn.
    rewrite Hg, Hp. apply reloadHaproxy_spec.
  - exact Hfile.
  - intros q Hq. cbn. rewrite (Hother q Hq). reflexivity.
  - unfold added in *. cbn. rewrite Ha2, Ha1.
    rewrite <- !app_assoc. cbn. rewrite <- !app_assoc. reflexivity.
  - apply in_or_app. right. now left.
  - now repeat constructor.
Qed.

Lemma successful_pass_publishes_the_backend_set_witness :
  exists w' before after,
    handleMessage brokenReload cfgTemplate strangerMsg environ0 configuredWorld =
      Returns tt w' /\
    files w' !! cfgPath = Some "backend web server web-a 10.0.0.1; " /\
    (forall q, q <> cfgPath -> files w' !! q = files configuredWorld !! q) /\
    added configuredWorld w' (before ++ ExecCommand "/usr/local/bin/reload" :: after) /\
    In (OsCreate cfgPath) before /\
    Forall isLogged after.
Proof.
  apply (successful_pass_publishes_the_backend_set brokenReload cfgTemplate
           strangerMsg environ0 configuredWorld
           (JSONText (JObject [("foo", JNumber "1");
                               ("Type", JString "SubscriptionConfirmation")]))
           mixedSnapshot).
  - reflexivity.
  - reflexivity.
  - reflexivity.
  - reflexivity.
  - split; reflexivity.
Defined.
